(** * Disco job specifications: [lib/disco/job.py]

    A shallow embedding of [Params], [JobDict] (construction, [pack],
    [unpack], [input_is_partitioned]) and [Job] (attribute lookup, the
    [JobDict] of a job, [run]) and the properties of the job specification
    proved about them.

    Python objects are values of one dynamically typed universe, a
    [JobDict] is the finite map of the entries stored in the dictionary,
    exceptions are the [Raise] branch of a result type, and the functions of
    other modules ([disco.util], [disco.dencode], [disco.modutil]) are
    parameters of the development. *)

From Stdlib Require Import ZArith String Ascii List.
From stdpp Require Import gmap strings list fin_maps.

Set Warnings "-register-all,-notation-for-abbreviation".
Local Open Scope string_scope.

(** ** Python values *)

Inductive value : Type :=
| VNone
| VBool (b : bool)
| VInt (z : Z)
| VStr (s : string)
| VList (l : list value)
| VTuple (l : list value)
| VDict (d : gmap string value)
| VFunc (name : string)
| VParams (attrs : gmap string value).

(** ** Exceptions and results

    The module raises its configuration errors under the name
    [DiscoError], which it neither imports nor defines: a statement
    [raise DiscoError(...)] raises [NameError] when the name is looked up,
    before the error is built. The other exceptions are the ones that the
    Python operations of the module raise. *)

Inductive exn : Type :=
| NameError (name : string)
| TypeError
| ValueError
| IndexError
| AttributeError
| KeyError (key : string).

Inductive result (A : Type) : Type :=
| Ok (a : A)
| Raise (e : exn).

Arguments Ok {A} a.
Arguments Raise {A} e.

#[global] Instance result_ret : MRet result := λ A a, Ok a.

#[global] Instance result_bind : MBind result := λ A B f r,
  match r with
  | Ok a => f a
  | Raise e => Raise e
  end.

Definition is_ok {A} (r : result A) : bool :=
  match r with
  | Ok _ => true
  | Raise _ => false
  end.

(** ** Python primitives used by the module *)

(** [bool(v)]: the truth value of an object. *)
Definition truthy (v : value) : bool :=
  match v with
  | VNone => false
  | VBool b => b
  | VInt z => negb (z =? 0)%Z
  | VStr s => negb (String.eqb s "")
  | VList l | VTuple l => negb (bool_decide (length l = 0%nat))
  | VDict d => negb (bool_decide (d = ∅))
  | VFunc _ => true
  | VParams _ => true
  end.

(** [a or b]. *)
Definition py_or (a b : value) : value := if truthy a then a else b.

Definition is_none (v : value) : bool :=
  match v with
  | VNone => true
  | _ => false
  end.

(** [callable(v)]. *)
Definition callable (v : value) : bool :=
  match v with
  | VFunc _ => true
  | _ => false
  end.

(** [isinstance(v, dict)]. *)
Definition is_dict (v : value) : bool :=
  match v with
  | VDict _ => true
  | _ => false
  end.

(** The keys of a dictionary, as the strings they are. *)
Definition dict_keys (d : gmap string value) : list value :=
  VStr <$> (map_to_list d).*1.

(** The one-character strings a Python 2 [str] iterates over. *)
Fixpoint chars (s : string) : list value :=
  match s with
  | EmptyString => []
  | String c s' => VStr (String c EmptyString) :: chars s'
  end.

(** [for x in v] / [list(v)]: the elements an object iterates over, or the
    [TypeError] of an object that is not iterable. *)
Definition py_iter (v : value) : result (list value) :=
  match v with
  | VList l | VTuple l => Ok l
  | VDict d => Ok (dict_keys d)
  | VStr s => Ok (chars s)
  | _ => Raise TypeError
  end.

(** [v[0]]. *)
Definition py_first (v : value) : result value :=
  match v with
  | VList (x :: _) | VTuple (x :: _) => Ok x
  | VList [] | VTuple [] => Raise IndexError
  | VStr (String c _) => Ok (VStr (String c EmptyString))
  | VStr EmptyString => Raise IndexError
  | VDict _ => Raise (KeyError "0")
  | _ => Raise TypeError
  end.

(** [max(ids)] over integers; [ValueError] on an empty sequence. *)
Definition py_max (ids : list Z) : result Z :=
  match ids with
  | [] => Raise ValueError
  | i :: rest => Ok (foldl Z.max i rest)
  end.

(** [v < n] for an integer [n], with the Python 2 ordering of objects of
    different types: [None] is below everything, numbers are below every
    other object. *)
Definition py_lt_int (v : value) (n : Z) : bool :=
  match v with
  | VNone => true
  | VBool b => (Z.b2z b <? n)%Z
  | VInt z => (z <? n)%Z
  | _ => false
  end.

(** [hash(v)] succeeds: lists and dictionaries are not hashable, a tuple is
    when its items are. *)
Fixpoint hashable (v : value) : bool :=
  match v with
  | VList _ | VDict _ => false
  | VTuple l => forallb hashable l
  | _ => true
  end.

(** [d.update(pairs)] for a sequence: every element is made a sequence
    ([TypeError] when it is not iterable), has to hold two items
    ([ValueError] otherwise), and its first item is the key ([TypeError]
    when it is not hashable); later pairs win. A dictionary of this universe
    holds its entries under strings: an entry under another hashable key
    has no place in it and is not recorded (no lookup of the module reads
    one). *)
Fixpoint update_pairs (d : gmap string value) (pairs : list value)
  : result (gmap string value) :=
  match pairs with
  | [] => Ok d
  | elem :: rest =>
      kv ← py_iter elem;
      match kv with
      | [k; v] =>
          if hashable k then
            update_pairs (match k with
                          | VStr key => <[key := v]> d
                          | _ => d
                          end) rest
          else Raise TypeError
      | _ => Raise ValueError
      end
  end.

(** [d.update(other)]: the entries of a dictionary over the ones of [d];
    any other object is iterated as a sequence of pairs (a parameter bag
    has no [keys] method and is not iterable; one that is given a callable
    [keys] attribute would be asked for its keys, which is outside this
    model). *)
Definition py_update (d : gmap string value) (other : value)
  : result (gmap string value) :=
  match other with
  | VDict e => Ok (e ∪ d)
  | _ => pairs ← py_iter other; update_pairs d pairs
  end.

(** [url.startswith('dir://')]; an object without [startswith] raises. *)
Definition startswith_dir (url : value) : result bool :=
  match url with
  | VStr s => Ok (String.prefix "dir://" s)
  | _ => Raise AttributeError
  end.

(** ** Helpers of [disco.util] *)

(** Modelled from the spec: [util.isiterable] is not in this file; an object
    is list-shaped when it has [__iter__], which a Python 2 string has not. *)
Definition isiterable (v : value) : bool :=
  match v with
  | VList _ | VTuple _ | VDict _ => true
  | _ => false
  end.

(** Modelled from the spec: [util.iterify] is not in this file; single items
    are promoted to one-element sequences, list-shaped entries are left as
    they are. *)
Definition iterify (v : value) : value :=
  if isiterable v then v else VTuple [v].

(** Modelled from the spec: [util.flatten] is not in this file; it yields the
    items of nested sequences (here: every opaque value across the function
    keys). *)
Fixpoint flatten_item (v : value) : list value :=
  match v with
  | VList l | VTuple l => flat_map flatten_item l
  | VDict d => dict_keys d
  | _ => [v]
  end.

Definition flatten (items : list value) : list value :=
  flat_map flatten_item items.

(** Modelled from the spec: [util.iskv] is not in this file; a discovered
    module that carries its own source is a (name, path) pair. *)
Definition iskv (v : value) : bool :=
  match v with
  | VTuple [_; _] => true
  | _ => false
  end.

(** [o[1]] on a pair. *)
Definition py_second (v : value) : value :=
  match v with
  | VTuple [_; p] => p
  | _ => VNone
  end.

(** The elements of [list(util.iterify(v))]. *)
Definition entry_of (v : value) : list value :=
  match v with
  | VList l | VTuple l => l
  | VDict d => dict_keys d
  | _ => [v]
  end.

(** ** [class Params] *)

Module Params.
Section Codec.
(** The opaque object codec, [util.pack] and [util.unpack]. *)
Variable util_pack : value → value.
Variable util_unpack : value → value.

(** [k.startswith('_')]. *)
Definition private (k : string) : bool := String.prefix "_" k.

(** [Params.__getstate__], on the attribute dictionary of the object. *)
Definition getstate (dict : gmap string value) : gmap string value :=
  util_pack <$> filter (λ kv, private kv.1 = false) dict.

(** [Params.__setstate__]: every entry of [state] is decoded and stored in
    the attribute dictionary; attributes held under other names stay. *)
Definition setstate (dict state : gmap string value) : gmap string value :=
  (util_unpack <$> state) ∪ dict.
End Codec.
End Params.

(** ** [class JobDict] *)

Module JobDict.
Section Collaborators.
(** Constants of other modules that the default table refers to:
    [worker.jobhome], [DiscoSettings()['DISCO_WORKER']],
    [DiscoSettings()['DISCO_JOB_OWNER']] and the interpreter version. *)
Variables jobhome worker owner version : value.

(** [util.urllist(i, listdirs=..., ddfs=...)]: the address resolver. *)
Variable urllist : value → bool → value → list value.
(** [util.read_index(dir)]: the (partition index, url) pairs of an index. *)
Variable read_index : value → list (Z * value).
(** [modutil.find_modules(functions)]. *)
Variable find_modules : list value → list value.
(** [util.pack] and [util.unpack]: the opaque object codec. *)
Variable util_pack : value → value.
Variable util_unpack : value → value.
(** [util.pack_files(paths)]: file name to file content. *)
Variable pack_files : list value → gmap string value.
(** [dencode.dumps] and [dencode.loads]: the wire format. *)
Variable wire : Type.
Variable dumps : gmap string value → wire.
Variable loads : wire → gmap string value.

(** The default scheduler policy. *)
Definition default_scheduler : gmap string value :=
  list_to_map [("force_local", VBool false);
               ("force_remote", VBool false);
               ("max_cores", VInt (2 ^ 31))].

(** [JobDict.defaults]. *)
Definition defaults : gmap string value :=
  list_to_map
    [("input", VTuple []);
     ("jobhome", jobhome);
     ("worker", worker);
     ("map?", VBool false);
     ("reduce?", VBool false);
     ("map", VNone);
     ("map_init", VFunc "func.noop");
     ("map_reader", VNone);
     ("map_input_stream", VTuple [VFunc "func.map_input_stream"]);
     ("map_output_stream", VTuple [VFunc "func.map_output_stream";
                                   VFunc "func.disco_output_stream"]);
     ("combiner", VNone);
     ("partition", VFunc "func.default_partition");
     ("reduce", VNone);
     ("reduce_init", VFunc "func.noop");
     ("reduce_reader", VFunc "func.chain_reader");
     ("reduce_input_stream", VTuple [VFunc "func.reduce_input_stream"]);
     ("reduce_output_stream", VTuple [VFunc "func.reduce_output_stream";
                                      VFunc "func.disco_output_stream"]);
     ("ext_params", VDict ∅);
     ("merge_partitions", VBool false);
     ("nr_reduces", VInt 0);
     ("params", VParams ∅);
     ("partitions", VInt 1);
     ("prefix", VStr "");
     ("profile", VBool false);
     ("required_files", VDict ∅);
     ("required_modules", VNone);
     ("scheduler", VDict default_scheduler);
     ("save", VBool false);
     ("sort", VBool false);
     ("status_interval", VInt 100000);
     ("owner", owner);
     ("version", version)].

(** [JobDict.default_factory = defaults.__getitem__]. *)
Definition default_factory (key : string) : result value :=
  match defaults !! key with
  | Some v => Ok v
  | None => Raise (KeyError key)
  end.

(** [JobDict.master_keys]: the keys sent to the master verbatim. *)
Definition master_keys : gset string :=
  list_to_set ["prefix"; "input"; "jobhome"; "worker"; "owner"; "nr_reduces";
               "scheduler"; "map?"; "reduce?"].

(** [JobDict.funcs]. *)
Definition funcs : list string :=
  ["map"; "map_init"; "map_reader"; "combiner"; "partition"; "reduce";
   "reduce_init"; "reduce_reader"; "map_input_stream"; "map_output_stream";
   "reduce_input_stream"; "reduce_output_stream"].

(** Modelled from the spec: [util.DefaultDict] is not in this file; [self[key]]
    is the stored entry and, for a key that is not stored, what
    [default_factory] returns (which is not stored). *)
Definition getitem (self : gmap string value) (key : string) : result value :=
  match self !! key with
  | Some v => Ok v
  | None => default_factory key
  end.

(** The value of [self[key]] for a key of [defaults] (for any other key
    that is not stored, [getitem] raises and this is [None]). *)
Definition item (self : gmap string value) (key : string) : value :=
  default (default VNone (defaults !! key)) (self !! key).

(** [JobDict.__contains__]. *)
Definition contains (key : string) : bool := bool_decide (key ∈ dom defaults).

(** [all(url.startswith('dir://') for url in urls)], left to right, stopping
    at the first url of another scheme. *)
Fixpoint all_dir_urls (urls : list value) : result bool :=
  match urls with
  | [] => Ok true
  | url :: rest =>
      b ← startswith_dir url;
      if b : bool then all_dir_urls rest else Ok false
  end.

(** The same over the urls of every entry. *)
Fixpoint all_dir (entries : list value) : result bool :=
  match entries with
  | [] => Ok true
  | urls :: rest =>
      us ← py_iter urls;
      b ← all_dir_urls us;
      if b : bool then all_dir rest else Ok false
  end.

(** [JobDict.input_is_partitioned]; [None] when the input is empty. *)
Definition input_is_partitioned (self : gmap string value) : result value :=
  inp ← getitem self "input";
  if truthy inp then
    entries ← py_iter inp;
    b ← all_dir entries;
    Ok (VBool b)
  else Ok VNone.

(** *** Construction, step by step *)

(** Required modules: discovered from the callables among the function
    options when the option is [None]. *)
Definition set_required_modules (self : gmap string value)
  : result (gmap string value) :=
  rm ← getitem self "required_modules";
  if is_none rm then
    fs ← mapM (getitem self) funcs;
    Ok (<["required_modules" :=
            VList (find_modules (filter (λ f, callable f = true)
                                        (flatten (iterify <$> fs))))]> self)
  else Ok self.

(** Input: every raw input is resolved and every resolved entry made a list. *)
Definition set_input (ddfs : value) (self : gmap string value)
  : result (gmap string value) :=
  inp ← getitem self "input";
  items ← py_iter inp;
  m ← getitem self "map";
  entries ← mapM (λ url, py_iter (iterify url))
                 (flat_map (λ i, urllist i (truthy m) ddfs) items);
  Ok (<["input" := VList (VList <$> entries)]> self).

(** [self['partitions'] = self['partitions'] or 0]. *)
Definition set_partitions (self : gmap string value)
  : result (gmap string value) :=
  p ← getitem self "partitions";
  Ok (<["partitions" := py_or p (VInt 0)]> self).

(** The partition indices [id for dir in input for id, url in
    util.read_index(dir[0])]. *)
Fixpoint partition_ids (dirs : list value) : result (list Z) :=
  match dirs with
  | [] => Ok []
  | dir :: rest =>
      d0 ← py_first dir;
      ids ← partition_ids rest;
      Ok ((read_index d0).*1 ++ ids)%list
  end.

(** The number of reduces, before [merge_partitions] is looked at. *)
Definition set_nr_reduces (self : gmap string value)
  : result (gmap string value) :=
  m ← getitem self "map";
  if truthy m then
    p ← getitem self "partitions";
    Ok (<["nr_reduces" := py_or p (VInt 1)]> self)
  else
    ip ← input_is_partitioned self;
    if truthy ip then
      inp ← getitem self "input";
      dirs ← py_iter inp;
      ids ← partition_ids dirs;
      k ← py_max ids;
      Ok (<["nr_reduces" := VInt (1 + k)]> self)
    else Ok (<["nr_reduces" := VInt 1]> self).

(** [merge_partitions]: only with partitions, and then one reduce; the
    refusal is the [NameError] of the name [DiscoError]. *)
Definition set_merge_partitions (self : gmap string value)
  : result (gmap string value) :=
  mp ← getitem self "merge_partitions";
  if truthy mp then
    p ← getitem self "partitions";
    partitioned ← (if truthy p then Ok true
                   else ip ← input_is_partitioned self; Ok (truthy ip));
    if partitioned : bool then Ok (<["nr_reduces" := VInt 1]> self)
    else Raise (NameError "DiscoError")
  else Ok self.

(** [scheduler.update(other)] on a copy of the default policy. *)
Definition merged_scheduler (other : value) : result (gmap string value) :=
  py_update default_scheduler other.

(** The scheduler policy: the overrides over the defaults, [max_cores]
    checked; the failure of the check is the [NameError] of the name
    [DiscoError]. *)
Definition set_scheduler (self : gmap string value)
  : result (gmap string value) :=
  other ← getitem self "scheduler";
  scheduler ← merged_scheduler other;
  match scheduler !! "max_cores" with
  | Some max_cores =>
      if py_lt_int max_cores 1
      then Raise (NameError "DiscoError")
      else Ok (<["scheduler" := VDict scheduler]> self)
  | None => Raise (KeyError "max_cores")
  end.

(** Job flow: the flags follow the presence of the functions. *)
Definition set_job_flow (self : gmap string value)
  : result (gmap string value) :=
  m ← getitem self "map";
  r ← getitem self "reduce";
  Ok (<["reduce?" := VBool (truthy r)]> (<["map?" := VBool (truthy m)]> self)).

(** [JobDict.__init__(self, ddfs=None, ...)] on the keyword arguments. *)
Definition init (ddfs : value) (kwargs : gmap string value)
  : result (gmap string value) :=
  self ← set_required_modules kwargs;
  self ← set_input ddfs self;
  self ← set_partitions self;
  self ← set_nr_reduces self;
  self ← set_merge_partitions self;
  self ← set_scheduler self;
  set_job_flow self.

(** *** [pack] and [unpack] *)

(** The head of [pack]: [required_files] becomes a dictionary (a listing of
    paths is read, an unset option starts empty) and receives the files of
    the required modules that come as (name, path) pairs. The entry of
    [self] is assigned or updated in place. *)
Definition set_required_files (self : gmap string value)
  : result (gmap string value) :=
  rf ← getitem self "required_files";
  self ← (if truthy rf then
            if is_dict rf then Ok self
            else
              paths ← py_iter rf;
              Ok (<["required_files" := VDict (pack_files paths)]> self)
          else Ok (<["required_files" := VDict ∅]> self));
  rf ← getitem self "required_files";
  match rf with
  | VDict files =>
      rm ← getitem self "required_modules";
      mods ← py_iter rm;
      Ok (<["required_files" :=
              VDict (pack_files (py_second <$> filter (λ o, iskv o = true) mods)
                     ∪ files)]> self)
  | _ => Raise AttributeError
  end.

(** The record that goes on the wire: one entry per key of [defaults], the
    value [self[key]] verbatim for a master key and encoded otherwise. *)
Definition jobpack_of (self : gmap string value) : gmap string value :=
  map_imap (λ key dflt,
              let v := default dflt (self !! key) in
              Some (if bool_decide (key ∈ master_keys) then v
                    else util_pack v))
           defaults.

(** [JobDict.pack]: the bytes, and [self] as the call leaves it. *)
Definition pack (self : gmap string value)
  : result (wire * gmap string value) :=
  self' ← set_required_files self;
  Ok (dumps (jobpack_of self'), self').

(** The key/value set [unpack] rebuilds: the decoded record over a copy of
    the defaults, every value outside the master keys decoded. *)
Definition decoded (jobpack : wire) : gmap string value :=
  map_imap (λ key v,
              Some (if bool_decide (key ∈ master_keys) then v
                    else util_unpack v))
           (loads jobpack ∪ defaults).

(** [JobDict.unpack], called without [lib]: the decoded key/value set
    is handed to the constructor as keyword arguments, [cls(jobdict)] with
    the keys as the names. A key [self] collides with the first parameter
    of the constructor, which is a [TypeError] of the call; a key [ddfs]
    binds the parameter [ddfs], which is [None] otherwise; every other key
    is an option. *)
Definition unpack (jobpack : wire) : result (gmap string value) :=
  let jobdict := decoded jobpack in
  if bool_decide (is_Some (jobdict !! "self")) then Raise TypeError
  else init (default VNone (jobdict !! "ddfs")) (delete "ddfs" jobdict).

(** *** Views of the methods used in the statements below *)

(** The fields of [self]: the value [self[key]] for every key of
    [defaults]. *)
Definition fields (self : gmap string value) : gmap string value :=
  map_imap (λ key dflt, Some (default dflt (self !! key))) defaults.

(** The files that [pack] adds for the required modules [mods]. *)
Definition module_files (mods : list value) : gmap string value :=
  pack_files (py_second <$> filter (λ o, iskv o = true) mods).

(** The dictionary that [pack] makes of the [required_files] option. *)
Definition resolved_files (rf : value) : result (gmap string value) :=
  if truthy rf then
    match rf with
    | VDict files => Ok files
    | _ => paths ← py_iter rf; Ok (pack_files paths)
    end
  else Ok ∅.

(** What the checks of the constructor establish of a specification. *)
Definition checked (S : gmap string value) : Prop :=
  (∃ scheduler max_cores,
     S !! "scheduler" = Some (VDict scheduler) ∧
     scheduler !! "max_cores" = Some max_cores ∧
     py_lt_int max_cores 1 = false) ∧
  (truthy (item S "merge_partitions") = true →
   S !! "nr_reduces" = Some (VInt 1)) ∧
  S !! "map?" = Some (VBool (truthy (item S "map"))) ∧
  S !! "reduce?" = Some (VBool (truthy (item S "reduce"))).

(** The constructor up to the number of reduces (before [merge_partitions]
    is looked at). *)
Definition derive (ddfs : value) (kwargs : gmap string value)
  : result (gmap string value) :=
  self ← set_required_modules kwargs;
  self ← set_input ddfs self;
  self ← set_partitions self;
  set_nr_reduces self.

(** The constructor up to the scheduler policy. *)
Definition before_scheduler (ddfs : value) (kwargs : gmap string value)
  : result (gmap string value) :=
  self ← derive ddfs kwargs;
  set_merge_partitions self.

(** The normalized input holding the entries [ess]. *)
Definition input_value (ess : list (list value)) : value :=
  VList (VList <$> ess).

(** The partition indices that the index reader reports for the first
    address of every entry. *)
Definition index_ids (ess : list (list value)) : list Z :=
  flat_map (λ urls, match urls with
                    | url :: _ => (read_index url).*1
                    | [] => []
                    end) ess.

(** [k] is the maximum of [ids]. *)
Definition is_max (ids : list Z) (k : Z) : Prop :=
  k ∈ ids ∧ ∀ i, i ∈ ids → (i ≤ k)%Z.

(** Every url of every entry is a string with the [dir://] scheme. *)
Definition dir_url (url : value) : Prop :=
  ∃ s, url = VStr s ∧ String.prefix "dir://" s = true.

Definition all_dir_scheme (ess : list (list value)) : Prop :=
  Forall (Forall dir_url) ess.

(** Every url of every entry is a string. *)
Definition string_urls (ess : list (list value)) : Prop :=
  Forall (Forall (λ url, ∃ s, url = VStr s)) ess.

(** The input is partitioned: it is not empty and every url of every entry
    has the [dir://] scheme. *)
Definition partitioned (ess : list (list value)) : Prop :=
  ess ≠ [] ∧ all_dir_scheme ess.

(** The entries that the items of the [input] option normalize to: every
    item resolved, every resolved entry made a list. *)
Definition normalized (ddfs : value) (kwargs : gmap string value)
    (items : list value) : list (list value) :=
  entry_of <$> flat_map (λ i, urllist i (truthy (item kwargs "map")) ddfs) items.

(** The modules discovered for the function options of [kwargs]. *)
Definition discovered (kwargs : gmap string value) : value :=
  VList (find_modules
           (filter (λ f, callable f = true)
                   (flatten (iterify <$> (item kwargs <$> funcs))))).

(** The scheduler option of [kwargs] merges onto the default policy and
    passes the check of [max_cores]. *)
Definition valid_scheduler (kwargs : gmap string value) : Prop :=
  ∃ scheduler max_cores,
    merged_scheduler (item kwargs "scheduler") = Ok scheduler ∧
    scheduler !! "max_cores" = Some max_cores ∧
    py_lt_int max_cores 1 = false.

(** The number of reduces [n] that the constructor derives from the map
    function [m], the partitions [p] (an integer by then) and the
    normalized input [ess], before [merge_partitions] is looked at. *)
Definition derived_nr (m p : value) (ess : list (list value)) (n : value)
  : Prop :=
  (truthy m = true ∧ n = py_or p (VInt 1)) ∨
  (truthy m = false ∧ ¬ partitioned ess ∧ n = VInt 1) ∨
  (truthy m = false ∧ partitioned ess ∧
   ∃ k, is_max (index_ids ess) k ∧ n = VInt (1 + k)).
End Collaborators.
End JobDict.

Arguments JobDict.defaults : simpl never.
Arguments JobDict.default_scheduler : simpl never.
Arguments JobDict.master_keys : simpl never.
(** ** [class Job] *)

Module Job.
Section Handle.
Variables jobhome worker owner version : value.
Variable urllist : value → bool → value → list value.
Variable read_index : value → list (Z * value).
Variable find_modules : list value → list value.
Variable util_pack : value → value.
Variable pack_files : list value → gmap string value.
Variable wire : Type.
Variable dumps : gmap string value → wire.

(** The master [self.master], the same object for every job of this
    development. *)
Variable master : value.
(** [getattr(self.master, attr)]. *)
Variable master_getattr : string → result value.
(** [self.master.request('/disco/job/new', jobpack)]: the reply of the
    master. *)
Variable request : wire → value.
(** [json.loads]. *)
Variable json_loads : value → value.
(** [functools.partial(f, name)]. *)
Variable partial : value → value → value.

(** A job handle: its name, and the attributes other than [master],
    [name] and [proxy_functions] that ordinary lookup finds on the object
    ([run], [JobDict], what a subclass defines, ...). *)
Record t : Type := { name : value; attrs : gmap string value }.

(** [Job.proxy_functions]. *)
Definition proxy_functions : list string :=
  ["clean"; "events"; "kill"; "jobinfo"; "jobspec"; "oob_get"; "oob_list";
   "profile_stats"; "purge"; "results"; "mapresults"; "wait"].

(** Ordinary attribute lookup on a job, before [__getattr__] is tried. *)
Definition lookup_attr (job : t) (attr : string) : option value :=
  if String.eqb attr "master" then Some master
  else if String.eqb attr "name" then Some (name job)
  else if String.eqb attr "proxy_functions"
       then Some (VTuple (VStr <$> proxy_functions))
  else attrs job !! attr.

(** [Job.__getattr__], called for the attributes that ordinary lookup does
    not find. *)
Definition getattr_missing (job : t) (attr : string) : result value :=
  if bool_decide (attr ∈ proxy_functions) then
    f ← master_getattr attr;
    Ok (partial f (name job))
  else Raise AttributeError.

(** [getattr(job, attr)]. *)
Definition getattr (job : t) (attr : string) : result value :=
  match lookup_attr job attr with
  | Some v => Ok v
  | None => getattr_missing job attr
  end.

(** *** [class Job.JobDict]: a [JobDict] whose missing keys are looked up
    on the job first *)

(** [Job.JobDict.default_factory]. *)
Definition default_factory (job : t) (attr : string) : result value :=
  match getattr job attr with
  | Ok v => Ok v
  | Raise AttributeError =>
      JobDict.default_factory jobhome worker owner version attr
  | Raise e => Raise e
  end.

(** [self[key]] on a [Job.JobDict]: the stored entry, else what the
    overriding [default_factory] returns. *)
Definition JobDict_getitem (job : t) (self : gmap string value) (key : string)
  : result value :=
  match self !! key with
  | Some v => Ok v
  | None => default_factory job key
  end.

(** The methods that [Job.JobDict] inherits: the bodies of [JobDict], with
    [self[key]] as above. *)
Definition JobDict_input_is_partitioned (job : t) (self : gmap string value)
  : result value :=
  inp ← JobDict_getitem job self "input";
  if truthy inp then
    entries ← py_iter inp;
    b ← JobDict.all_dir entries;
    Ok (VBool b)
  else Ok VNone.

Definition JobDict_set_required_modules (job : t) (self : gmap string value)
  : result (gmap string value) :=
  rm ← JobDict_getitem job self "required_modules";
  if is_none rm then
    fs ← mapM (JobDict_getitem job self) JobDict.funcs;
    Ok (<["required_modules" :=
            VList (find_modules (filter (λ f, callable f = true)
                                        (flatten (iterify <$> fs))))]> self)
  else Ok self.

Definition JobDict_set_input (job : t) (ddfs : value)
    (self : gmap string value) : result (gmap string value) :=
  inp ← JobDict_getitem job self "input";
  items ← py_iter inp;
  m ← JobDict_getitem job self "map";
  entries ← mapM (λ url, py_iter (iterify url))
                 (flat_map (λ i, urllist i (truthy m) ddfs) items);
  Ok (<["input" := VList (VList <$> entries)]> self).

Definition JobDict_set_partitions (job : t) (self : gmap string value)
  : result (gmap string value) :=
  p ← JobDict_getitem job self "partitions";
  Ok (<["partitions" := py_or p (VInt 0)]> self).

Definition JobDict_set_nr_reduces (job : t) (self : gmap string value)
  : result (gmap string value) :=
  m ← JobDict_getitem job self "map";
  if truthy m then
    p ← JobDict_getitem job self "partitions";
    Ok (<["nr_reduces" := py_or p (VInt 1)]> self)
  else
    ip ← JobDict_input_is_partitioned job self;
    if truthy ip then
      inp ← JobDict_getitem job self "input";
      dirs ← py_iter inp;
      ids ← JobDict.partition_ids read_index dirs;
      k ← py_max ids;
      Ok (<["nr_reduces" := VInt (1 + k)]> self)
    else Ok (<["nr_reduces" := VInt 1]> self).

Definition JobDict_set_merge_partitions (job : t) (self : gmap string value)
  : result (gmap string value) :=
  mp ← JobDict_getitem job self "merge_partitions";
  if truthy mp then
    p ← JobDict_getitem job self "partitions";
    partitioned ← (if truthy p then Ok true
                   else ip ← JobDict_input_is_partitioned job self;
                        Ok (truthy ip));
    if partitioned : bool then Ok (<["nr_reduces" := VInt 1]> self)
    else Raise (NameError "DiscoError")
  else Ok self.

Definition JobDict_set_scheduler (job : t) (self : gmap string value)
  : result (gmap string value) :=
  other ← JobDict_getitem job self "scheduler";
  scheduler ← JobDict.merged_scheduler other;
  match scheduler !! "max_cores" with
  | Some max_cores =>
      if py_lt_int max_cores 1
      then Raise (NameError "DiscoError")
      else Ok (<["scheduler" := VDict scheduler]> self)
  | None => Raise (KeyError "max_cores")
  end.

Definition JobDict_set_job_flow (job : t) (self : gmap string value)
  : result (gmap string value) :=
  m ← JobDict_getitem job self "map";
  r ← JobDict_getitem job self "reduce";
  Ok (<["reduce?" := VBool (truthy r)]> (<["map?" := VBool (truthy m)]> self)).

(** [Job.JobDict.__init__(self, job, ddfs=..., ...)]: the job is kept and
    the constructor of [JobDict] runs on the keyword arguments. *)
Definition JobDict_init (job : t) (ddfs : value) (kwargs : gmap string value)
  : result (gmap string value) :=
  self ← JobDict_set_required_modules job kwargs;
  self ← JobDict_set_input job ddfs self;
  self ← JobDict_set_partitions job self;
  self ← JobDict_set_nr_reduces job self;
  self ← JobDict_set_merge_partitions job self;
  self ← JobDict_set_scheduler job self;
  JobDict_set_job_flow job self.

Definition JobDict_set_required_files (job : t) (self : gmap string value)
  : result (gmap string value) :=
  rf ← JobDict_getitem job self "required_files";
  self ← (if truthy rf then
            if is_dict rf then Ok self
            else
              paths ← py_iter rf;
              Ok (<["required_files" := VDict (pack_files paths)]> self)
          else Ok (<["required_files" := VDict ∅]> self));
  rf ← JobDict_getitem job self "required_files";
  match rf with
  | VDict files =>
      rm ← JobDict_getitem job self "required_modules";
      mods ← py_iter rm;
      Ok (<["required_files" :=
              VDict (pack_files (py_second <$> filter (λ o, iskv o = true) mods)
                     ∪ files)]> self)
  | _ => Raise AttributeError
  end.

(** The record that goes on the wire: [self[key]] for every key of
    [defaults], verbatim for a master key and encoded otherwise. *)
Definition JobDict_jobpack_of (job : t) (self : gmap string value)
  : result (gmap string value) :=
  entries ← mapM (λ key,
                    v ← JobDict_getitem job self key;
                    Ok (key, if bool_decide (key ∈ JobDict.master_keys) then v
                             else util_pack v))
                 (map_to_list (JobDict.defaults jobhome worker owner version)).*1;
  Ok (list_to_map entries).

(** The inherited [pack]. *)
Definition JobDict_pack (job : t) (self : gmap string value)
  : result (wire * gmap string value) :=
  self' ← JobDict_set_required_files job self;
  jobpack ← JobDict_jobpack_of job self';
  Ok (dumps jobpack, self').

(** *** [Job.run] *)

(** The keyword arguments that [run] cannot forward: [prefix] and [ddfs]
    are given by [run] itself, [job] and [self] are the positional
    parameters of [Job.JobDict.__init__]; a second value for one of them is
    a [TypeError] of the call. *)
Definition reserved : list string := ["prefix"; "ddfs"; "job"; "self"].

(** [Job.JobDict(self, prefix=self.name, ddfs=self.master.master,
    ...).pack()]: the job pack that [run] builds. *)
Definition run_jobpack (job : t) (kwargs : gmap string value) : result wire :=
  ddfs ← master_getattr "master";
  if bool_decide (Exists (λ key, is_Some (kwargs !! key)) reserved)
  then Raise TypeError
  else
    self ← JobDict_init job ddfs (<["prefix" := name job]> kwargs);
    '(jobpack, _) ← JobDict_pack job self;
    Ok jobpack.

(** [status != 'ok']. *)
Definition not_ok (status : value) : bool :=
  match status with
  | VStr s => negb (String.eqb s "ok")
  | _ => true
  end.

(** [Job.run]: the job as the call leaves it when it returns; when it
    raises, the job is as it was. For a status other than [ok] the
    statement [raise DiscoError(...)] raises the [NameError] of that name,
    before the message is put together. *)
Definition run (job : t) (kwargs : gmap string value) : result t :=
  jobpack ← run_jobpack job kwargs;
  reply ← py_iter (json_loads (request jobpack));
  match reply with
  | [status; response] =>
      if not_ok status then Raise (NameError "DiscoError")
      else Ok {| name := response; attrs := attrs job |}
  | _ => Raise ValueError
  end.

(** The request that [run] sends to the master, if it gets that far. *)
Definition sent (job : t) (kwargs : gmap string value) : option wire :=
  match run_jobpack job kwargs with
  | Ok jobpack => Some jobpack
  | Raise _ => None
  end.

(** *** Views of the methods used in the statements below *)

(** The attributes of the job that carry the name of an option: what a
    [Job.JobDict] of the job finds for the options that are not stored. *)
Definition inherited (job : t) : gmap string value :=
  filter (λ kv, is_Some (JobDict.defaults jobhome worker owner version !! kv.1))
         (attrs job).

End Handle.
End Job.

(** ** Stand-ins for the collaborators

    Simple instances of the parameters, to run the definitions on concrete
    job descriptions. *)

Module Sample.
(** Modelled from the spec: [util.urllist] is not in this file; for plain
    addresses and for lists of redundant addresses, which need no expansion,
    the resolver returns the descriptor as its only entry. *)
Definition urllist (i : value) (listdirs : bool) (ddfs : value) : list value :=
  [i].

(** An index reader that finds the partitions 0, 2 and 1 in every directory. *)
Definition read_index (dir : value) : list (Z * value) :=
  [(0%Z, VStr "part0"); (2%Z, VStr "part2"); (1%Z, VStr "part1")].

(** An index reader whose only partition carries a negative index. *)
Definition read_index_neg (dir : value) : list (Z * value) :=
  [((-5)%Z, VStr "part")].

(** Module discovery that finds nothing to send. *)
Definition find_modules (fs : list value) : list value := [].

(** Module discovery that finds one module shipped with its source. *)
Definition find_modules_kv (fs : list value) : list value :=
  [VTuple [VStr "mymod"; VStr "lib/mymod.py"]].

(** A codec that wraps a value in a token and unwraps it again. *)
Definition util_pack (v : value) : value := VTuple [VStr "token"; v].

Definition util_unpack (v : value) : value :=
  match v with
  | VTuple [VStr "token"; v'] => v'
  | _ => v
  end.

(** File packing that maps every path to a (here empty) content. *)
Definition pack_files (paths : list value) : gmap string value :=
  list_to_map (omap (λ p, match p with
                          | VStr s => Some (s, VStr "")
                          | _ => None
                          end) paths).

(** A wire format that carries the record as it is. *)
Definition dumps (r : gmap string value) : gmap string value := r.
Definition loads (w : gmap string value) : gmap string value := w.

Definition jobhome : value := VStr "jobhome".
Definition worker : value := VStr "disco-worker".
Definition owner : value := VStr "user@host".
Definition version : value := VStr "2.6".

(** Construction, [pack] and [unpack] with these stand-ins. *)
Definition init : value → gmap string value → result (gmap string value) :=
  JobDict.init jobhome worker owner version urllist read_index find_modules.

Definition pack
  : gmap string value → result (gmap string value * gmap string value) :=
  JobDict.pack jobhome worker owner version util_pack pack_files
               (gmap string value) dumps.

Definition unpack : gmap string value → result (gmap string value) :=
  JobDict.unpack jobhome worker owner version urllist read_index find_modules
                 util_unpack (gmap string value) loads.

Definition item : gmap string value → string → value :=
  JobDict.item jobhome worker owner version.

Definition input_is_partitioned : gmap string value → result value :=
  JobDict.input_is_partitioned jobhome worker owner version.

Definition set_input : value → gmap string value → result (gmap string value) :=
  JobDict.set_input jobhome worker owner version urllist.

Definition derive : value → gmap string value → result (gmap string value) :=
  JobDict.derive jobhome worker owner version urllist read_index find_modules.

Definition before_scheduler
  : value → gmap string value → result (gmap string value) :=
  JobDict.before_scheduler jobhome worker owner version urllist read_index
                           find_modules.

Definition normalized
  : value → gmap string value → list value → list (list value) :=
  JobDict.normalized jobhome worker owner version urllist.

(** The specification built from [kwargs] (empty when construction
    fails), and what [pack] returns for a specification. *)
Definition built (kwargs : gmap string value) : gmap string value :=
  match init VNone kwargs with
  | Ok self => self
  | Raise _ => ∅
  end.

Definition packed (S : gmap string value)
  : gmap string value * gmap string value :=
  match pack S with
  | Ok r => r
  | Raise _ => (∅, ∅)
  end.

(** The same with a module discovery that finds a module with its source. *)
Definition init_kv : value → gmap string value → result (gmap string value) :=
  JobDict.init jobhome worker owner version urllist read_index find_modules_kv.

Definition unpack_kv : gmap string value → result (gmap string value) :=
  JobDict.unpack jobhome worker owner version urllist read_index
                 find_modules_kv util_unpack (gmap string value) loads.

(** A map and a reduce function, and some keyword arguments. *)
Definition fun_map : value := VFunc "fun_map".
Definition fun_reduce : value := VFunc "fun_reduce".

Definition kw (l : list (string * value)) : gmap string value := list_to_map l.

(** Overrides of transparent keys only. *)
Definition kw_plain : gmap string value :=
  kw [("input", VList [VStr "u1"; VList [VStr "u2a"; VStr "u2b"]]);
      ("prefix", VStr "job")].

(** A map function and a number of partitions. *)
Definition kw_map (partitions : value) : gmap string value :=
  kw [("map", fun_map); ("partitions", partitions)].

(** The same with [merge_partitions] requested. *)
Definition kw_map_merge (partitions : value) : gmap string value :=
  kw [("map", fun_map); ("partitions", partitions);
      ("merge_partitions", VBool true)].

(** A reduce over the partitioned results of two earlier jobs. *)
Definition dirs : list (list value) :=
  [[VStr "dir://host/job1"]; [VStr "dir://host/job2"]].

Definition kw_dirs : gmap string value :=
  kw [("input", VList [VStr "dir://host/job1"; VStr "dir://host/job2"]);
      ("reduce", fun_reduce)].

Definition kw_dirs_merge : gmap string value :=
  kw [("input", VList [VStr "dir://host/job1"; VStr "dir://host/job2"]);
      ("reduce", fun_reduce); ("merge_partitions", VBool true)].



(** A scheduler override given as a sequence of pairs. *)
Definition kw_scheduler_pairs (max_cores : Z) : gmap string value :=
  kw [("scheduler", VList [VTuple [VStr "max_cores"; VInt max_cores]])].

(** Required files given as a list of paths. *)
Definition kw_files : gmap string value :=
  kw [("required_files", VList [VStr "lib.py"])].


(** A parameter bag with a private attribute. *)
Definition bag : gmap string value :=
  kw [("a", VInt 1); ("b", VStr "x"); ("_hidden", VInt 99)].
End Sample.

(** ** A master and two jobs

    A master that answers every request with the name of a new job, and
    the handles of a job of the class itself and of a job of a subclass
    that defines [map]. *)

Module SampleJob.
Definition master : value := VStr "disco://localhost".

Definition master_getattr (attr : string) : result value :=
  if String.eqb attr "master" then Ok (VStr "localhost")
  else if bool_decide (attr ∈ Job.proxy_functions)
       then Ok (VFunc ("Disco." ++ attr))
  else Raise AttributeError.

Definition request (jobpack : gmap string value) : value :=
  VList [VStr "ok"; VStr "job@549:d2f5a"].

Definition json_loads (reply : value) : value := reply.

Definition partial (f name : value) : value := VTuple [f; name].

Definition plain : Job.t := {| Job.name := VStr "job"; Job.attrs := ∅ |}.

Definition mapper : Job.t :=
  {| Job.name := VStr "job"; Job.attrs := {["map" := Sample.fun_map]} |}.

Definition JobDict_init
  : Job.t → value → gmap string value → result (gmap string value) :=
  Job.JobDict_init Sample.jobhome Sample.worker Sample.owner Sample.version
                   Sample.urllist Sample.read_index Sample.find_modules
                   master master_getattr partial.

Definition JobDict_pack
  : Job.t → gmap string value
    → result (gmap string value * gmap string value) :=
  Job.JobDict_pack Sample.jobhome Sample.worker Sample.owner Sample.version
                   Sample.util_pack Sample.pack_files (gmap string value)
                   Sample.dumps master master_getattr partial.

Definition inherited : Job.t → gmap string value :=
  Job.inherited Sample.jobhome Sample.worker Sample.owner Sample.version.

Definition run_jobpack
  : Job.t → gmap string value → result (gmap string value) :=
  Job.run_jobpack Sample.jobhome Sample.worker Sample.owner Sample.version
                  Sample.urllist Sample.read_index Sample.find_modules
                  Sample.util_pack Sample.pack_files (gmap string value)
                  Sample.dumps master master_getattr partial.

Definition run : Job.t → gmap string value → result Job.t :=
  Job.run Sample.jobhome Sample.worker Sample.owner Sample.version
          Sample.urllist Sample.read_index Sample.find_modules
          Sample.util_pack Sample.pack_files (gmap string value)
          Sample.dumps master master_getattr request json_loads partial.
End SampleJob.

(** * Properties *)

(** ** The result monad *)

Lemma bind_Ok_inv {A B} (r : result A) (f : A → result B) (b : B) :
  r ≫= f = Ok b → ∃ a, r = Ok a ∧ f a = Ok b.
Proof. destruct r as [a|e]; simpl; [eauto | discriminate]. Qed.

Lemma mapM_Ok {A B} (f : A → result B) (g : A → B) (l : list A) :
  (∀ a, a ∈ l → f a = Ok (g a)) → mapM f l = Ok (g <$> l).
Proof.
  induction l as [|a l IH]; intros Hf; simpl; [done |].
  rewrite (Hf a) by left. simpl.
  rewrite IH; [done |]. intros a' Ha'. apply Hf. by right.
Qed.


(** ** Python primitives *)

(** [update] never removes a key. *)
Lemma update_pairs_dom (pairs : list value) (d d' : gmap string value) :
  update_pairs d pairs = Ok d' → dom d ⊆ dom d'.
Proof.
  revert d. induction pairs as [|elem rest IH]; intros d; simpl.
  { by intros [= <-]. }
  intros (kv & _ & Hrest)%bind_Ok_inv.
  destruct kv as [|k [|v [|]]]; try done.
  destruct (hashable k); [| done]. apply IH in Hrest.
  destruct k; try done. etrans; [| done].
  rewrite dom_insert_L. set_solver.
Qed.

Lemma py_update_dom (d d' : gmap string value) (other : value) :
  py_update d other = Ok d' → dom d ⊆ dom d'.
Proof.
  destruct other; simpl; try done; try (by apply update_pairs_dom).
  intros [= <-]. rewrite dom_union_L. set_solver.
Qed.

Lemma py_update_keeps (d d' : gmap string value) (other : value) :
  py_update d other = Ok d' → d' ∪ d = d'.
Proof.
  intros Hdom%py_update_dom. apply map_eq. intros key. rewrite lookup_union.
  destruct (d' !! key) as [v|] eqn:Hkey; [by destruct (d !! key) |].
  apply not_elem_of_dom in Hkey.
  assert (key ∉ dom d) as ->%not_elem_of_dom by set_solver. done.
Qed.

Lemma py_iter_iterify (v : value) : py_iter (iterify v) = Ok (entry_of v).
Proof. by destruct v. Qed.

Lemma entry_of_single (v : value) : isiterable v = false → entry_of v = [v].
Proof. by destruct v. Qed.

Lemma truthy_VList (l : list value) : truthy (VList l) = negb (bool_decide (l = [])).
Proof. by destruct l. Qed.

Lemma py_or_partitions (p : Z) :
  py_or (py_or (VInt p) (VInt 0)) (VInt 1)
  = VInt (if decide (p = 0%Z) then 1 else p).
Proof.
  unfold py_or. simpl. destruct (decide (p = 0%Z)) as [-> | Hne]; [done |].
  rewrite (proj2 (Z.eqb_neq p 0) Hne). simpl.
  by rewrite (proj2 (Z.eqb_neq p 0) Hne).
Qed.

Lemma py_max_is_max (ids : list Z) (k : Z) :
  py_max ids = Ok k → k ∈ ids ∧ ∀ i, i ∈ ids → (i ≤ k)%Z.
Proof.
  destruct ids as [|i0 rest]; simpl; [discriminate |]. intros [= <-].
  revert i0. induction rest as [|j rest IH]; intros i0; simpl.
  - split; [left | intros i ->%list_elem_of_singleton; lia].
  - destruct (IH (Z.max i0 j)) as [Hin Hle]. split.
    + apply elem_of_cons in Hin as [Heq | Hin]; [| by do 2 right].
      rewrite Heq. destruct (Z.max_spec i0 j) as [[_ ->] | [_ ->]];
        [right; left | left].
    + intros i Hi. apply elem_of_cons in Hi as [-> | Hi].
      * specialize (Hle (Z.max i0 j)). etrans; [| apply Hle; left]. lia.
      * apply elem_of_cons in Hi as [-> | Hi].
        -- etrans; [| apply Hle; left]. lia.
        -- apply Hle. by right.
Qed.

(** ** The dictionary of a job *)

Section Construction.
Variables jobhome worker owner version : value.
Variable urllist : value → bool → value → list value.
Variable read_index : value → list (Z * value).
Variable find_modules : list value → list value.

Local Notation defaults := (JobDict.defaults jobhome worker owner version).
Local Notation getitem := (JobDict.getitem jobhome worker owner version).
Local Notation item := (JobDict.item jobhome worker owner version).
Local Notation input_is_partitioned :=
  (JobDict.input_is_partitioned jobhome worker owner version).
Local Notation set_required_modules :=
  (JobDict.set_required_modules jobhome worker owner version find_modules).
Local Notation set_input :=
  (JobDict.set_input jobhome worker owner version urllist).
Local Notation set_partitions :=
  (JobDict.set_partitions jobhome worker owner version).
Local Notation set_nr_reduces :=
  (JobDict.set_nr_reduces jobhome worker owner version read_index).
Local Notation set_merge_partitions :=
  (JobDict.set_merge_partitions jobhome worker owner version).
Local Notation set_scheduler :=
  (JobDict.set_scheduler jobhome worker owner version).
Local Notation set_job_flow :=
  (JobDict.set_job_flow jobhome worker owner version).
Local Notation derive :=
  (JobDict.derive jobhome worker owner version urllist read_index find_modules).
Local Notation before_scheduler :=
  (JobDict.before_scheduler jobhome worker owner version urllist read_index
                            find_modules).
Local Notation init :=
  (JobDict.init jobhome worker owner version urllist read_index find_modules).
Local Notation index_ids := (JobDict.index_ids read_index).
Local Notation partition_ids := (JobDict.partition_ids read_index).

Local Notation normalized :=
  (JobDict.normalized jobhome worker owner version urllist).
Local Notation discovered :=
  (JobDict.discovered jobhome worker owner version find_modules).
Local Notation derived_nr := (JobDict.derived_nr read_index).
Local Notation valid_scheduler :=
  (JobDict.valid_scheduler jobhome worker owner version).

Lemma getitem_item (self : gmap string value) (key : string) :
  is_Some (defaults !! key) → getitem self key = Ok (item self key).
Proof.
  intros [d Hd]. unfold JobDict.getitem, JobDict.item, JobDict.default_factory.
  destruct (self !! key); [done |]. change (default VNone (defaults !! key)) with
    (match defaults !! key with Some v => v | None => VNone end).
  by rewrite Hd.
Qed.

Lemma item_lookup (self : gmap string value) (key : string) (v : value) :
  self !! key = Some v → item self key = v.
Proof. unfold JobDict.item. by intros ->. Qed.

Lemma item_insert_eq (self : gmap string value) (key : string) (v : value) :
  item (<[key := v]> self) key = v.
Proof. unfold JobDict.item. by rewrite lookup_insert_eq. Qed.

Lemma item_insert_ne (self : gmap string value) (key key' : string) (v : value) :
  key ≠ key' → item (<[key := v]> self) key' = item self key'.
Proof. intros Hne. unfold JobDict.item. by rewrite lookup_insert_ne. Qed.


Lemma default_keys (key : string) :
  key ∈ ["input"; "map"; "reduce"; "partitions"; "merge_partitions";
         "scheduler"; "required_modules"; "required_files"; "nr_reduces";
         "map?"; "reduce?"] →
  is_Some (defaults !! key).
Proof.
  intros H. repeat (apply elem_of_cons in H as [-> | H]; [vm_compute; eauto |]).
  by apply elem_of_nil in H.
Qed.

Lemma funcs_in_defaults (key : string) :
  key ∈ JobDict.funcs → is_Some (defaults !! key).
Proof.
  intros H. unfold JobDict.funcs in H.
  repeat (apply elem_of_cons in H as [-> | H]; [vm_compute; eauto |]).
  by apply elem_of_nil in H.
Qed.

Lemma getitem_known (self : gmap string value) (key : string) :
  key ∈ ["input"; "map"; "reduce"; "partitions"; "merge_partitions";
         "scheduler"; "required_modules"; "required_files"; "nr_reduces";
         "map?"; "reduce?"] →
  getitem self key = Ok (item self key).
Proof. intros H. by apply getitem_item, default_keys. Qed.

(** *** The steps of the constructor *)

Lemma bind_Ok {A B} (a : A) (f : A → result B) : Ok a ≫= f = f a.
Proof. done. Qed.

Lemma bind_Raise {A B} (e : exn) (f : A → result B) : Raise e ≫= f = Raise e.
Proof. done. Qed.

Ltac known_keys :=
  repeat first
    [ rewrite getitem_known by (repeat first [by left | right])
    | rewrite bind_Ok
    | rewrite bind_Raise ].

Lemma set_required_modules_spec (self : gmap string value) :
  set_required_modules self
  = Ok (if is_none (item self "required_modules")
        then <["required_modules" := discovered self]> self
        else self).
Proof.
  unfold JobDict.set_required_modules. known_keys.
  destruct (is_none _); [| done].
  rewrite (mapM_Ok _ (item self)); [done |].
  intros key Hkey. by apply getitem_item, funcs_in_defaults.
Qed.

Lemma set_input_spec (ddfs : value) (self : gmap string value) :
  set_input ddfs self
  = (items ← py_iter (item self "input");
     Ok (<["input" := JobDict.input_value (normalized ddfs self items)]> self)).
Proof.
  unfold JobDict.set_input. known_keys.
  destruct (py_iter _) as [items|e]; [| done]. known_keys.
  rewrite (mapM_Ok _ entry_of); [done |].
  intros url _. apply py_iter_iterify.
Qed.

Lemma set_partitions_spec (self : gmap string value) :
  set_partitions self
  = Ok (<["partitions" := py_or (item self "partitions") (VInt 0)]> self).
Proof. unfold JobDict.set_partitions. by known_keys. Qed.

Lemma all_dir_urls_true (urls : list value) :
  JobDict.all_dir_urls urls = Ok true ↔ Forall JobDict.dir_url urls.
Proof.
  induction urls as [|url urls IH]; simpl; [by split |].
  rewrite Forall_cons, <- IH. unfold JobDict.dir_url.
  destruct url; simpl; try (split; [done | by intros [(? & ? & _) _]]).
  destruct (String.prefix "dir://" s) eqn:Hs.
  - split; [by eauto | by intros [_ ?]].
  - split; [done |]. intros [(s' & [= <-] & Hs') _]. congruence.
Qed.

Lemma all_dir_true (ess : list (list value)) :
  JobDict.all_dir (VList <$> ess) = Ok true ↔ JobDict.all_dir_scheme ess.
Proof.
  unfold JobDict.all_dir_scheme.
  induction ess as [|urls ess IH]; simpl; [by split |].
  rewrite Forall_cons, <- IH, <- all_dir_urls_true.
  destruct (JobDict.all_dir_urls urls) as [[|]|e]; simpl;
    [tauto | by split; [| intros []] | by split; [| intros []]].
Qed.

Lemma input_is_partitioned_spec (self : gmap string value)
    (ess : list (list value)) :
  item self "input" = JobDict.input_value ess →
  input_is_partitioned self
  = if bool_decide (ess = []) then Ok VNone
    else b ← JobDict.all_dir (VList <$> ess); Ok (VBool b).
Proof.
  intros Hinp. unfold JobDict.input_is_partitioned. known_keys.
  rewrite Hinp. unfold JobDict.input_value. rewrite truthy_VList.
  destruct ess as [|urls ess]; [done |]. by rewrite bool_decide_eq_false_2.
Qed.

Lemma input_is_partitioned_true (self : gmap string value)
    (ess : list (list value)) (ip : value) :
  item self "input" = JobDict.input_value ess →
  input_is_partitioned self = Ok ip →
  truthy ip = true ↔ JobDict.partitioned ess.
Proof.
  intros Hinp. rewrite (input_is_partitioned_spec _ _ Hinp).
  unfold JobDict.partitioned. rewrite <- all_dir_true. case_bool_decide as Hess.
  - intros [= <-]. simpl. split; [done | by intros []].
  - destruct (JobDict.all_dir _) as [b|e]; simpl; [| done].
    intros [= <-]. simpl. split; [by intros -> | by intros [_ [= ->]]].
Qed.

Lemma partition_ids_spec (ess : list (list value)) :
  Forall (λ urls, urls ≠ []) ess →
  partition_ids (VList <$> ess) = Ok (index_ids ess).
Proof.
  induction 1 as [|urls ess Hne _ IH]; [done |].
  destruct urls as [|url urls]; [done |].
  change (partition_ids (VList <$> (url :: urls) :: ess))
    with (ids ← partition_ids (VList <$> ess);
          Ok ((read_index url).*1 ++ ids)%list).
  by rewrite IH.
Qed.

Lemma partition_ids_Ok (ess : list (list value)) (ids : list Z) :
  partition_ids (VList <$> ess) = Ok ids → ids = index_ids ess.
Proof.
  revert ids. induction ess as [|urls ess IH]; intros ids.
  - by intros [= <-].
  - destruct urls as [|url urls]; [done |].
    change (partition_ids (VList <$> (url :: urls) :: ess))
      with (ids ← partition_ids (VList <$> ess);
            Ok ((read_index url).*1 ++ ids)%list).
    intros (ids' & Hids' & [= <-])%bind_Ok_inv.
    by rewrite (IH _ Hids').
Qed.

(** The three ways in which the number of reduces is derived. *)
Lemma set_nr_reduces_map (self : gmap string value) :
  truthy (item self "map") = true →
  set_nr_reduces self
  = Ok (<["nr_reduces" := py_or (item self "partitions") (VInt 1)]> self).
Proof.
  intros Hmap. unfold JobDict.set_nr_reduces. known_keys.
  rewrite Hmap. by known_keys.
Qed.

Lemma set_nr_reduces_plain (self : gmap string value) (ip : value) :
  truthy (item self "map") = false →
  input_is_partitioned self = Ok ip → truthy ip = false →
  set_nr_reduces self = Ok (<["nr_reduces" := VInt 1]> self).
Proof.
  intros Hmap Hip Hfalse. unfold JobDict.set_nr_reduces. known_keys.
  rewrite Hmap, Hip. known_keys. by rewrite Hfalse.
Qed.

Lemma set_nr_reduces_partitioned (self : gmap string value) (ip : value)
    (ess : list (list value)) :
  truthy (item self "map") = false →
  input_is_partitioned self = Ok ip → truthy ip = true →
  item self "input" = JobDict.input_value ess →
  set_nr_reduces self
  = (ids ← partition_ids (VList <$> ess);
     k ← py_max ids;
     Ok (<["nr_reduces" := VInt (1 + k)]> self)).
Proof.
  intros Hmap Hip Htrue Hinp. unfold JobDict.set_nr_reduces. known_keys.
  rewrite Hmap, Hip. known_keys. rewrite Htrue. known_keys.
  by rewrite Hinp.
Qed.

(** What a successful derivation stores, by cases. *)
Lemma set_nr_reduces_inv (self self' : gmap string value)
    (ess : list (list value)) :
  item self "input" = JobDict.input_value ess →
  set_nr_reduces self = Ok self' →
  ∃ n, self' = <["nr_reduces" := n]> self ∧
    derived_nr (item self "map") (item self "partitions") ess n.
Proof.
  intros Hinp Hset.
  destruct (truthy (item self "map")) eqn:Hmap.
  { rewrite set_nr_reduces_map in Hset by done. injection Hset as <-.
    eexists; split; [done |]. by left. }
  destruct (input_is_partitioned self) as [ip|e] eqn:Hip; last first.
  { unfold JobDict.set_nr_reduces in Hset. revert Hset. known_keys.
    rewrite Hmap, Hip. by known_keys. }
  pose proof (input_is_partitioned_true _ _ _ Hinp Hip) as Hiff.
  destruct (truthy ip) eqn:Htrue.
  - rewrite (set_nr_reduces_partitioned _ _ _ Hmap Hip Htrue Hinp) in Hset.
    apply bind_Ok_inv in Hset as (ids & Hids & Hset).
    apply bind_Ok_inv in Hset as (k & Hk & [= <-]).
    apply partition_ids_Ok in Hids as ->.
    eexists; split; [done |]. right; right.
    split; [done |]. split; [by apply Hiff |]. exists k. split; [| done].
    by apply py_max_is_max.
  - rewrite (set_nr_reduces_plain _ _ Hmap Hip Htrue) in Hset.
    injection Hset as <-. eexists; split; [done |]. right; left.
    split; [done |]. split; [| done]. intros H%Hiff. congruence.
Qed.

Lemma set_merge_partitions_off (self : gmap string value) :
  truthy (item self "merge_partitions") = false →
  set_merge_partitions self = Ok self.
Proof.
  intros Hmp. unfold JobDict.set_merge_partitions. known_keys. by rewrite Hmp.
Qed.

Lemma set_merge_partitions_on (self : gmap string value) :
  truthy (item self "merge_partitions") = true →
  set_merge_partitions self
  = (partitioned ← (if truthy (item self "partitions") then Ok true
                    else ip ← input_is_partitioned self; Ok (truthy ip));
     if partitioned : bool then Ok (<["nr_reduces" := VInt 1]> self)
     else Raise (NameError "DiscoError")).
Proof.
  intros Hmp. unfold JobDict.set_merge_partitions. known_keys.
  rewrite Hmp. by known_keys.
Qed.

Lemma set_scheduler_spec (self : gmap string value) :
  set_scheduler self
  = (scheduler ← JobDict.merged_scheduler (item self "scheduler");
     match scheduler !! "max_cores" with
     | Some max_cores =>
         if py_lt_int max_cores 1
         then Raise (NameError "DiscoError")
         else Ok (<["scheduler" := VDict scheduler]> self)
     | None => Raise (KeyError "max_cores")
     end).
Proof. unfold JobDict.set_scheduler. by known_keys. Qed.

Lemma set_job_flow_spec (self : gmap string value) :
  set_job_flow self
  = Ok (<["reduce?" := VBool (truthy (item self "reduce"))]>
          (<["map?" := VBool (truthy (item self "map"))]> self)).
Proof. unfold JobDict.set_job_flow. by known_keys. Qed.

(** *** The constructor as a whole *)

(** [kwargs] once the required modules are known. *)
Local Notation with_modules kwargs :=
  (if is_none (item kwargs "required_modules")
   then <["required_modules" := discovered kwargs]> kwargs
   else kwargs).

(** [kwargs] once the input is normalized and the partitions are an
    integer. *)
Local Notation prepared ddfs kwargs items :=
  (<["partitions" := py_or (item kwargs "partitions") (VInt 0)]>
     (<["input" := JobDict.input_value (normalized ddfs kwargs items)]>
        (with_modules kwargs))).

Ltac not_in_keys :=
  let H := fresh in
  intros H;
  repeat (apply elem_of_cons in H as [H | H]; [discriminate H |]);
  by apply elem_of_nil in H.

Ltac items :=
  repeat first
    [ rewrite item_insert_eq
    | rewrite item_insert_ne by done ].

Lemma item_with_modules (kwargs : gmap string value) (key : string) :
  key ≠ "required_modules" → item (with_modules kwargs) key = item kwargs key.
Proof. intros Hne. destruct (is_none _); [| done]. by rewrite item_insert_ne. Qed.

Lemma normalized_with_modules (ddfs : value) (kwargs : gmap string value)
    (items : list value) :
  normalized ddfs (with_modules kwargs) items = normalized ddfs kwargs items.
Proof. unfold JobDict.normalized. by rewrite item_with_modules. Qed.

Lemma item_prepared (ddfs : value) (kwargs : gmap string value)
    (items : list value) (key : string) :
  key ∉ ["partitions"; "input"; "required_modules"] →
  item (prepared ddfs kwargs items) key = item kwargs key.
Proof.
  intros Hkey. rewrite !item_insert_ne, item_with_modules; [done | ..];
    intros ?; subst key; apply Hkey; repeat first [by left | right].
Qed.

Lemma derive_spec (ddfs : value) (kwargs : gmap string value) :
  derive ddfs kwargs
  = (items ← py_iter (item kwargs "input");
     set_nr_reduces (prepared ddfs kwargs items)).
Proof.
  unfold JobDict.derive.
  rewrite set_required_modules_spec, bind_Ok, set_input_spec.
  rewrite item_with_modules by done.
  destruct (py_iter _) as [items|e]; [| done].
  rewrite !bind_Ok, set_partitions_spec, bind_Ok. items.
  by rewrite item_with_modules, normalized_with_modules.
Qed.

Lemma init_derive (ddfs : value) (kwargs : gmap string value) :
  init ddfs kwargs
  = (self ← derive ddfs kwargs;
     self ← set_merge_partitions self;
     self ← set_scheduler self;
     set_job_flow self).
Proof.
  unfold JobDict.init, JobDict.derive.
  destruct (set_required_modules kwargs) as [s1|]; [| done]. rewrite !bind_Ok.
  destruct (set_input ddfs s1) as [s2|]; [| done]. rewrite !bind_Ok.
  by destruct (set_partitions s2) as [s3|].
Qed.

Lemma init_before_scheduler (ddfs : value) (kwargs : gmap string value) :
  init ddfs kwargs
  = (self ← before_scheduler ddfs kwargs;
     self ← set_scheduler self;
     set_job_flow self).
Proof.
  rewrite init_derive. unfold JobDict.before_scheduler.
  by destruct (derive ddfs kwargs) as [s4|].
Qed.

Lemma derive_Ok_inv (ddfs : value) (kwargs self : gmap string value) :
  derive ddfs kwargs = Ok self →
  ∃ items n,
    py_iter (item kwargs "input") = Ok items ∧
    self = <["nr_reduces" := n]> (prepared ddfs kwargs items) ∧
    derived_nr (item kwargs "map")
               (py_or (item kwargs "partitions") (VInt 0))
               (normalized ddfs kwargs items) n.
Proof.
  rewrite derive_spec. intros (items & Hitems & Hset)%bind_Ok_inv.
  eapply set_nr_reduces_inv in Hset as (n & -> & Hn); [| by items].
  exists items, n. split; [done |]. split; [done |].
  revert Hn. items. by rewrite item_with_modules.
Qed.

Lemma before_scheduler_Ok_inv (ddfs : value) (kwargs self : gmap string value) :
  before_scheduler ddfs kwargs = Ok self →
  ∃ items n n',
    py_iter (item kwargs "input") = Ok items ∧
    self = <["nr_reduces" := n']> (prepared ddfs kwargs items) ∧
    derived_nr (item kwargs "map")
               (py_or (item kwargs "partitions") (VInt 0))
               (normalized ddfs kwargs items) n ∧
    if truthy (item kwargs "merge_partitions")
    then (truthy (py_or (item kwargs "partitions") (VInt 0)) = true ∨
          JobDict.partitioned (normalized ddfs kwargs items)) ∧
         n' = VInt 1
    else n' = n.
Proof.
  unfold JobDict.before_scheduler. intros (s4 & Hs4 & Hmp)%bind_Ok_inv.
  apply derive_Ok_inv in Hs4 as (items & n & Hitems & -> & Hn).
  exists items, n.
  assert (item (<["nr_reduces" := n]> (prepared ddfs kwargs items))
               "merge_partitions" = item kwargs "merge_partitions") as Hmpv.
  { items. by rewrite item_with_modules. }
  destruct (truthy (item kwargs "merge_partitions")) eqn:Hon.
  - rewrite set_merge_partitions_on in Hmp by (by rewrite Hmpv).
    apply bind_Ok_inv in Hmp as (b & Hb & Hmp). destruct b; [| done].
    injection Hmp as <-. exists (VInt 1). rewrite insert_insert_eq.
    do 3 (split; [done |]). split; [| done].
    revert Hb. items.
    destruct (truthy (py_or _ _)); [by left |].
    intros (ip & Hip & [= Htrue])%bind_Ok_inv. right.
    eapply input_is_partitioned_true; [| done | done]. by items.
  - rewrite set_merge_partitions_off in Hmp by (by rewrite Hmpv).
    injection Hmp as <-. by exists n.
Qed.

Lemma init_Ok_inv (ddfs : value) (kwargs S : gmap string value) :
  init ddfs kwargs = Ok S →
  ∃ self scheduler max_cores,
    before_scheduler ddfs kwargs = Ok self ∧
    JobDict.merged_scheduler (item kwargs "scheduler") = Ok scheduler ∧
    scheduler !! "max_cores" = Some max_cores ∧
    py_lt_int max_cores 1 = false ∧
    S = <["reduce?" := VBool (truthy (item kwargs "reduce"))]>
          (<["map?" := VBool (truthy (item kwargs "map"))]>
             (<["scheduler" := VDict scheduler]> self)).
Proof.
  rewrite init_before_scheduler. intros (self & Hself & HS)%bind_Ok_inv.
  apply bind_Ok_inv in HS as (s6 & Hs6 & HS).
  pose proof Hself as Hinv.
  apply before_scheduler_Ok_inv in Hinv as (items & n & n' & _ & -> & _).
  rewrite set_scheduler_spec in Hs6. revert Hs6. items.
  rewrite item_with_modules by done.
  intros (scheduler & Hsched & Hs6)%bind_Ok_inv.
  destruct (scheduler !! "max_cores") as [max_cores|] eqn:Hmc; [| done].
  destruct (py_lt_int max_cores 1) eqn:Hlt; [done |]. injection Hs6 as <-.
  rewrite set_job_flow_spec in HS. injection HS as <-.
  eexists _, scheduler, max_cores. do 4 (split; [done |]).
  items. by rewrite !item_with_modules.
Qed.

(** *** The number of reduces *)

Lemma elem_of_index_ids (ess : list (list value)) (k : Z) :
  k ∈ index_ids ess → ∃ dir url, (k, url) ∈ read_index dir.
Proof.
  unfold JobDict.index_ids. intros (urls & _ & Hk)%list_elem_of_In%in_flat_map.
  destruct urls as [|dir urls]; [by destruct Hk |].
  apply list_elem_of_In, list_elem_of_fmap in Hk as ([k' url] & -> & Hin).
  by exists dir, url.
Qed.

Lemma is_max_unique (ids : list Z) (k k' : Z) :
  JobDict.is_max ids k → JobDict.is_max ids k' → k = k'.
Proof.
  intros [Hin Hle] [Hin' Hle']. apply Hle in Hin'. apply Hle' in Hin. lia.
Qed.

Lemma input_value_inj (ess ess' : list (list value)) :
  JobDict.input_value ess = JobDict.input_value ess' → ess = ess'.
Proof.
  unfold JobDict.input_value. intros [= H]. revert ess' H.
  induction ess as [|e ess IH]; intros [|e' ess']; simpl; try done.
  intros [= -> H]. f_equal. by apply IH.
Qed.

(** What the constructor leaves in a specification [S]: the normalized
    input and the number of reduces. *)
Lemma init_Ok_fields (ddfs : value) (kwargs S : gmap string value) :
  init ddfs kwargs = Ok S →
  ∃ items n n',
    py_iter (item kwargs "input") = Ok items ∧
    S !! "input" = Some (JobDict.input_value (normalized ddfs kwargs items)) ∧
    S !! "nr_reduces" = Some n' ∧
    derived_nr (item kwargs "map")
               (py_or (item kwargs "partitions") (VInt 0))
               (normalized ddfs kwargs items) n ∧
    if truthy (item kwargs "merge_partitions")
    then (truthy (py_or (item kwargs "partitions") (VInt 0)) = true ∨
          JobDict.partitioned (normalized ddfs kwargs items)) ∧
         n' = VInt 1
    else n' = n.
Proof.
  intros (self & scheduler & max_cores & Hself & _ & _ & _ & ->)%init_Ok_inv.
  apply before_scheduler_Ok_inv in Hself
    as (items & n & n' & Hitems & -> & Hn & Hn').
  exists items, n, n'. split; [done |].
  split; [by simplify_map_eq |]. split; [by simplify_map_eq |]. done.
Qed.

(** C1, as amended. Whenever construction succeeds from options whose
    [partitions] is unset, [None] or a non-negative integer, and the index
    reader reports no negative partition index, the specification holds an
    integer [nr_reduces >= 1]. *)
Theorem nr_reduces_at_least_one (ddfs : value) (kwargs S : gmap string value) :
  init ddfs kwargs = Ok S →
  (item kwargs "partitions" = VNone ∨
   ∃ p, item kwargs "partitions" = VInt p ∧ (0 ≤ p)%Z) →
  (∀ dir id url, (id, url) ∈ read_index dir → (0 ≤ id)%Z) →
  ∃ n, S !! "nr_reduces" = Some (VInt n) ∧ (1 ≤ n)%Z.
Proof.
  intros (items & n & n' & _ & _ & Hnr & Hn & Hn')%init_Ok_fields Hp Hids.
  rewrite Hnr. destruct (truthy (item kwargs "merge_partitions")).
  { destruct Hn' as [_ ->]. by exists 1%Z. }
  subst n'. destruct Hn as [[_ ->] | [(_ & _ & ->) | (_ & _ & k & [Hk _] & ->)]].
  - destruct Hp as [-> | (p & -> & Hp)]; [by exists 1%Z |].
    rewrite py_or_partitions. eexists; split; [done |].
    destruct (decide (p = 0%Z)); lia.
  - by exists 1%Z.
  - apply elem_of_index_ids in Hk as (dir & url & Hin%Hids).
    exists (1 + k)%Z. split; [done | lia].
Qed.

(** C3, as amended. When construction succeeds with a map function present
    and [merge_partitions] not requested, [nr_reduces] is [partitions] for
    [partitions > 0], and 1 for [partitions] 0, [None] or not given (the
    default being 1). *)
Theorem nr_reduces_with_map (ddfs : value) (kwargs S : gmap string value) :
  init ddfs kwargs = Ok S →
  truthy (item kwargs "map") = true →
  truthy (item kwargs "merge_partitions") = false →
  (∀ p, item kwargs "partitions" = VInt p → (0 < p)%Z →
        S !! "nr_reduces" = Some (VInt p)) ∧
  (item kwargs "partitions" = VInt 0 ∨ item kwargs "partitions" = VNone ∨
   kwargs !! "partitions" = None →
   S !! "nr_reduces" = Some (VInt 1)).
Proof.
  intros (items & n & n' & _ & _ & Hnr & Hn & Hn')%init_Ok_fields Hmap Hmp.
  rewrite Hnr, Hmp in *. subst n'.
  destruct Hn as [[_ ->] | [(Hno & _) | (Hno & _)]]; [| congruence..].
  split.
  - intros p -> Hp. rewrite py_or_partitions.
    destruct (decide (p = 0%Z)); [lia | done].
  - intros [-> | [-> | Hunset]]; [done.. |].
    unfold JobDict.item. by rewrite Hunset.
Qed.

(** C4, as amended. When construction succeeds with no map function and
    [merge_partitions] not requested, and the normalized input is
    partitioned with [k] the largest partition index that the index reader
    reports for the inputs, [nr_reduces] is [k + 1]. *)
Theorem nr_reduces_reduce_only (ddfs : value) (kwargs S : gmap string value)
    (ess : list (list value)) (k : Z) :
  init ddfs kwargs = Ok S →
  truthy (item kwargs "map") = false →
  truthy (item kwargs "merge_partitions") = false →
  S !! "input" = Some (JobDict.input_value ess) →
  JobDict.partitioned ess →
  JobDict.is_max (index_ids ess) k →
  S !! "nr_reduces" = Some (VInt (k + 1)).
Proof.
  intros (items & n & n' & _ & Hinp & Hnr & Hn & Hn')%init_Ok_fields
    Hmap Hmp Hess Hpart Hk.
  rewrite Hinp in Hess.
  assert (normalized ddfs kwargs items = ess) as Heq
    by (apply input_value_inj; congruence).
  rewrite Hnr, Hmp, Heq in *. subst n'.
  destruct Hn as [[Hyes _] | [(_ & Hnot & _) | (_ & _ & k' & Hk' & ->)]];
    [congruence | done |].
  rewrite (is_max_unique _ _ _ Hk Hk'). do 2 f_equal. lia.
Qed.

(** *** The checks of the constructor *)

Lemma all_dir_string_urls (ess : list (list value)) :
  JobDict.string_urls ess → ∃ b, JobDict.all_dir (VList <$> ess) = Ok b.
Proof.
  induction 1 as [|urls ess Hurls _ [b IH]]; [by exists true |].
  assert (∃ b', JobDict.all_dir_urls urls = Ok b') as [b' Hb'].
  { induction Hurls as [|url urls [s ->] _ [b' IH']]; [by exists true |].
    simpl. destruct (String.prefix "dir://" s); [by exists b' | by exists false]. }
  change (JobDict.all_dir (VList <$> urls :: ess))
    with (b ← JobDict.all_dir_urls urls;
          if b : bool then JobDict.all_dir (VList <$> ess) else Ok false).
  rewrite Hb', bind_Ok. destruct b'; [by exists b | by exists false].
Qed.

Lemma input_is_partitioned_false (self : gmap string value)
    (ess : list (list value)) :
  item self "input" = JobDict.input_value ess →
  JobDict.string_urls ess → ¬ JobDict.partitioned ess →
  input_is_partitioned self
  = Ok (if bool_decide (ess = []) then VNone else VBool false).
Proof.
  intros Hinp Hstr Hnot. rewrite (input_is_partitioned_spec _ _ Hinp).
  case_bool_decide as Hess; [done |].
  destruct (all_dir_string_urls _ Hstr) as [b Hb]. rewrite Hb, bind_Ok.
  destruct b; [| done]. destruct Hnot. split; [done |]. by apply all_dir_true.
Qed.

Lemma input_is_partitioned_yes (self : gmap string value)
    (ess : list (list value)) :
  item self "input" = JobDict.input_value ess →
  JobDict.partitioned ess →
  input_is_partitioned self = Ok (VBool true).
Proof.
  intros Hinp [Hess Hall]. rewrite (input_is_partitioned_spec _ _ Hinp).
  rewrite bool_decide_eq_false_2 by done.
  by rewrite (proj2 (all_dir_true ess) Hall).
Qed.

Lemma item_input_prepared (ddfs : value) (kwargs : gmap string value)
    (items : list value) :
  item (prepared ddfs kwargs items) "input"
  = JobDict.input_value (normalized ddfs kwargs items).
Proof. by items. Qed.



Lemma init_Ok_intro (ddfs : value) (kwargs self : gmap string value) :
  before_scheduler ddfs kwargs = Ok self →
  valid_scheduler kwargs →
  ∃ scheduler,
    JobDict.merged_scheduler (item kwargs "scheduler") = Ok scheduler ∧
    init ddfs kwargs
    = Ok (<["reduce?" := VBool (truthy (item kwargs "reduce"))]>
            (<["map?" := VBool (truthy (item kwargs "map"))]>
               (<["scheduler" := VDict scheduler]> self))).
Proof.
  intros Hself (scheduler & max_cores & Hsched & Hmc & Hlt).
  exists scheduler. split; [done |].
  rewrite init_before_scheduler, Hself, bind_Ok.
  apply before_scheduler_Ok_inv in Hself as (items & n & n' & _ & -> & _).
  rewrite set_scheduler_spec. items. rewrite item_with_modules by done.
  rewrite Hsched, bind_Ok, Hmc, Hlt, bind_Ok, set_job_flow_spec. items.
  by rewrite !item_with_modules.
Qed.


Lemma before_scheduler_item (ddfs : value) (kwargs self : gmap string value)
    (key : string) :
  before_scheduler ddfs kwargs = Ok self →
  key ∉ ["nr_reduces"; "partitions"; "input"; "required_modules"] →
  item self key = item kwargs key.
Proof.
  intros (items & n & n' & _ & -> & _)%before_scheduler_Ok_inv Hkey.
  rewrite item_insert_ne, item_prepared; [done | ..].
  - intros Hin. apply Hkey. by right.
  - intros <-. apply Hkey. by left.
Qed.


(** C8. For every specification that the constructor builds, the input is a
    list of entries [ess], and [input_is_partitioned] is [True] exactly when
    [ess] is not empty and every url of every entry is a string with the
    [dir://] scheme; it is [None], which is false, on the empty input, and
    [False] when the input is not empty and some url (all being strings)
    has another scheme. *)
Theorem input_is_partitioned_iff (ddfs : value) (kwargs S : gmap string value) :
  init ddfs kwargs = Ok S →
  ∃ ess,
    S !! "input" = Some (JobDict.input_value ess) ∧
    (input_is_partitioned S = Ok (VBool true) ↔
     ess ≠ [] ∧ JobDict.all_dir_scheme ess) ∧
    (∀ ip, input_is_partitioned S = Ok ip →
           truthy ip = true ↔ ess ≠ [] ∧ JobDict.all_dir_scheme ess) ∧
    (ess = [] → input_is_partitioned S = Ok VNone) ∧
    (ess ≠ [] → JobDict.string_urls ess → ¬ JobDict.all_dir_scheme ess →
     input_is_partitioned S = Ok (VBool false)).
Proof.
  intros (items & n & n' & _ & Hinp & _)%init_Ok_fields.
  exists (normalized ddfs kwargs items). split; [done |].
  apply item_lookup in Hinp.
  pose proof (λ ip, input_is_partitioned_true S _ ip Hinp) as Htrue.
  split; [| split; [done |]; split].
  - split.
    + intros Hip. by apply (Htrue _ Hip).
    + by apply input_is_partitioned_yes.
  - intros Hnil. by rewrite (input_is_partitioned_spec _ _ Hinp), Hnil.
  - intros Hne Hstr Hnot.
    rewrite (input_is_partitioned_false _ _ Hinp Hstr).
    + by rewrite bool_decide_eq_false_2.
    + by intros [_ ?].
Qed.


(** *** Constructing again from the fields of a specification *)

Lemma insert_eq_inv (self : gmap string value) (key : string) (x y : value) :
  <[key := x]> self = <[key := y]> self → x = y.
Proof.
  intros H. apply (f_equal (.!! key)) in H.
  rewrite !lookup_insert_eq in H. by injection H.
Qed.

(** The number of reduces depends on [map], [partitions] and [input]
    only. *)
Lemma set_nr_reduces_ext (a b : gmap string value) (n : value) :
  item a "map" = item b "map" →
  item a "partitions" = item b "partitions" →
  item a "input" = item b "input" →
  set_nr_reduces a = Ok (<["nr_reduces" := n]> a) →
  set_nr_reduces b = Ok (<["nr_reduces" := n]> b).
Proof.
  intros Hm Hp Hi. unfold JobDict.set_nr_reduces, JobDict.input_is_partitioned.
  known_keys. rewrite Hm, Hp, Hi.
  destruct (truthy (item b "map")).
  { by intros [= ->%insert_eq_inv]. }
  destruct (truthy (item b "input")); known_keys; last first.
  { simpl. by intros [= ->%insert_eq_inv]. }
  destruct (py_iter (item b "input")) as [entries|]; [| done]. known_keys.
  destruct (JobDict.all_dir entries) as [ok|]; [| done]. known_keys.
  simpl. destruct ok; last first.
  { by intros [= ->%insert_eq_inv]. }
  known_keys.
  destruct (partition_ids entries) as [ids|]; [| done]. known_keys.
  destruct (py_max ids) as [k|]; [| done]. known_keys.
  by intros [= ->%insert_eq_inv].
Qed.

(** Entries that are lists already normalize to themselves when the
    resolver returns a list as it is. *)
Lemma normalized_lists (ddfs : value) (V : gmap string value)
    (ess : list (list value)) :
  (∀ l listdirs d, urllist (VList l) listdirs d = [VList l]) →
  normalized ddfs V (VList <$> ess) = ess.
Proof.
  intros Hpass. unfold JobDict.normalized.
  induction ess as [|e ess IH]; [done |].
  simpl. rewrite Hpass. simpl. f_equal. apply IH.
Qed.

(** A dictionary that already holds what the constructor would store is
    constructed as it is. *)
Lemma init_fixpoint (ddfs : value) (V : gmap string value) (rm p n : value)
    (ess : list (list value)) (scheduler : gmap string value)
    (max_cores : value) :
  (∀ l listdirs d, urllist (VList l) listdirs d = [VList l]) →
  V !! "required_modules" = Some rm → is_none rm = false →
  V !! "input" = Some (JobDict.input_value ess) →
  V !! "partitions" = Some p → py_or p (VInt 0) = p →
  V !! "nr_reduces" = Some n →
  set_nr_reduces V = Ok (<["nr_reduces" := n]> V) →
  truthy (item V "merge_partitions") = false →
  V !! "scheduler" = Some (VDict scheduler) →
  scheduler ∪ JobDict.default_scheduler = scheduler →
  scheduler !! "max_cores" = Some max_cores →
  py_lt_int max_cores 1 = false →
  V !! "map?" = Some (VBool (truthy (item V "map"))) →
  V !! "reduce?" = Some (VBool (truthy (item V "reduce"))) →
  init ddfs V = Ok V.
Proof.
  intros Hpass Hrm Hnone Hinp Hp Hpor Hn Hnr Hmp Hs Hsu Hmc Hlt Hmap Hred.
  unfold JobDict.init.
  rewrite set_required_modules_spec, (item_lookup _ _ _ Hrm), Hnone, bind_Ok.
  rewrite set_input_spec, (item_lookup _ _ _ Hinp).
  change (py_iter (JobDict.input_value ess)) with (Ok (VList <$> ess)).
  rewrite bind_Ok.
  rewrite (normalized_lists _ _ _ Hpass).
  rewrite (insert_id _ _ _ Hinp), bind_Ok.
  rewrite set_partitions_spec, (item_lookup _ _ _ Hp), Hpor.
  rewrite (insert_id _ _ _ Hp), bind_Ok.
  rewrite Hnr, (insert_id _ _ _ Hn), bind_Ok.
  rewrite (set_merge_partitions_off _ Hmp), bind_Ok.
  rewrite set_scheduler_spec, (item_lookup _ _ _ Hs).
  change (JobDict.merged_scheduler (VDict scheduler))
    with (Ok (scheduler ∪ JobDict.default_scheduler)).
  rewrite bind_Ok, Hsu, Hmc, Hlt, (insert_id _ _ _ Hs), bind_Ok.
  rewrite set_job_flow_spec. f_equal.
  rewrite (insert_id _ _ _ Hmap). by rewrite (insert_id _ _ _ Hred).
Qed.

(** Every specification that the constructor returns has passed its
    checks. *)
Lemma init_checked (ddfs : value) (kwargs S : gmap string value) :
  init ddfs kwargs = Ok S →
  JobDict.checked jobhome worker owner version S.
Proof.
  intros HS. pose proof HS as Hf.
  apply init_Ok_fields in Hf as (items & n & n' & _ & _ & Hnr & _ & Hn').
  apply init_Ok_inv in HS
    as (self & scheduler & max_cores & Hself & _ & Hmc & Hlt & ->).
  assert (∀ key, key ∈ ["merge_partitions"; "map"; "reduce"] →
                 item (<["reduce?" := VBool (truthy (item kwargs "reduce"))]>
                         (<["map?" := VBool (truthy (item kwargs "map"))]>
                            (<["scheduler" := VDict scheduler]> self))) key
                 = item kwargs key) as Hitem.
  { intros key Hkey.
    repeat (apply elem_of_cons in Hkey as [-> | Hkey];
            [rewrite !item_insert_ne by done;
             apply (before_scheduler_item _ _ _ _ Hself); not_in_keys |]).
    by apply elem_of_nil in Hkey. }
  split; [| split; [| split]].
  - exists scheduler, max_cores. split; [by simplify_map_eq | done].
  - rewrite Hitem by left.
    intros Hon. rewrite Hon in Hn'. destruct Hn' as [_ ->]. done.
  - rewrite Hitem by (right; left). by simplify_map_eq.
  - rewrite Hitem by (do 2 right; left). by simplify_map_eq.
Qed.

Local Notation fields := (JobDict.fields jobhome worker owner version).

Lemma lookup_fields (self : gmap string value) (key : string) :
  fields self !! key
  = match defaults !! key with
    | Some _ => Some (item self key)
    | None => None
    end.
Proof.
  unfold JobDict.fields, JobDict.item. rewrite map_lookup_imap.
  by destruct (defaults !! key).
Qed.

Lemma lookup_fields_known (self : gmap string value) (key : string) :
  is_Some (defaults !! key) → fields self !! key = Some (item self key).
Proof. intros [d Hd]. by rewrite lookup_fields, Hd. Qed.

Lemma item_fields (self : gmap string value) (key : string) :
  is_Some (defaults !! key) → item (fields self) key = item self key.
Proof. intros Hkey. apply item_lookup. by apply lookup_fields_known. Qed.

(** An option that the keyword arguments leave out has its default. *)
Lemma item_left_out (kwargs : gmap string value) (key : string) (d : value) :
  dom kwargs ⊆ JobDict.master_keys → key ∉ JobDict.master_keys →
  defaults !! key = Some d → item kwargs key = d.
Proof.
  intros Hdom Hkey Hd. unfold JobDict.item.
  rewrite (proj1 (not_elem_of_dom kwargs key)) by set_solver.
  change (default VNone (defaults !! key))
    with (match defaults !! key with Some v => v | None => VNone end).
  by rewrite Hd.
Qed.

Ltac left_out :=
  apply item_left_out;
  [ done
  | unfold JobDict.master_keys; rewrite elem_of_list_to_set; not_in_keys
  | by vm_compute ].


(** The dictionary that the constructor returns, entry by entry. *)
Lemma init_Ok_stored (ddfs : value) (kwargs S : gmap string value) :
  init ddfs kwargs = Ok S →
  ∃ items n n' scheduler max_cores,
    py_iter (item kwargs "input") = Ok items ∧
    S = <["reduce?" := VBool (truthy (item kwargs "reduce"))]>
          (<["map?" := VBool (truthy (item kwargs "map"))]>
             (<["scheduler" := VDict scheduler]>
                (<["nr_reduces" := n']> (prepared ddfs kwargs items)))) ∧
    set_nr_reduces (prepared ddfs kwargs items)
    = Ok (<["nr_reduces" := n]> (prepared ddfs kwargs items)) ∧
    (truthy (item kwargs "merge_partitions") = false → n' = n) ∧
    scheduler ∪ JobDict.default_scheduler = scheduler ∧
    scheduler !! "max_cores" = Some max_cores ∧
    py_lt_int max_cores 1 = false.
Proof.
  intros (self & scheduler & max_cores & Hself & Hsched & Hmc & Hlt & ->)
    %init_Ok_inv.
  unfold JobDict.before_scheduler in Hself.
  apply bind_Ok_inv in Hself as (s4 & Hs4 & Hmerge).
  pose proof Hs4 as Hset.
  apply derive_Ok_inv in Hs4 as (items & n & Hitems & -> & _).
  rewrite derive_spec, Hitems, bind_Ok in Hset.
  assert (∃ n', self = <["nr_reduces" := n']> (prepared ddfs kwargs items) ∧
                (truthy (item kwargs "merge_partitions") = false → n' = n))
    as (n' & -> & Hn').
  { destruct (truthy (item kwargs "merge_partitions")) eqn:Hmp.
    - rewrite set_merge_partitions_on in Hmerge
        by (items; by rewrite item_with_modules).
      apply bind_Ok_inv in Hmerge as ([|] & _ & Hmerge); [| done].
      injection Hmerge as <-. exists (VInt 1).
      by rewrite insert_insert_eq.
    - rewrite set_merge_partitions_off in Hmerge
        by (items; by rewrite item_with_modules).
      injection Hmerge as <-. by exists n. }
  exists items, n, n', scheduler, max_cores.
  do 4 (split; [done |]). split; [| done].
  by apply py_update_keeps in Hsched.
Qed.

Ltac known := apply default_keys; repeat first [by left | right].

(** Constructing again from the fields of a specification built from
    transparent options (with [required_files] as [pack] may have left it)
    returns these fields. *)
Lemma init_fields_again (ddfs ddfs' : value) (kwargs S : gmap string value)
    (rf : value) :
  (∀ l listdirs d, urllist (VList l) listdirs d = [VList l]) →
  dom kwargs ⊆ JobDict.master_keys →
  init ddfs kwargs = Ok S →
  init ddfs' (fields (<["required_files" := rf]> S))
  = Ok (fields (<["required_files" := rf]> S)).
Proof.
  intros Hpass Hdom
    (items & n & n' & scheduler & max_cores & Hitems & -> & Hset & Hn' & Hsu
     & Hmc & Hlt)%init_Ok_stored.
  assert (item kwargs "required_modules" = VNone) as Hrm by left_out.
  assert (item kwargs "map" = VNone) as Hmap by left_out.
  assert (item kwargs "reduce" = VNone) as Hred by left_out.
  assert (item kwargs "partitions" = VInt 1) as Hp by left_out.
  assert (item kwargs "merge_partitions" = VBool false) as Hmp by left_out.
  rewrite Hn' in * by (by rewrite Hmp). clear Hn'.
  rewrite Hrm, Hmap, Hred, Hp in *.
  change (if is_none VNone
          then <["required_modules" := discovered kwargs]> kwargs
          else kwargs)
    with (<["required_modules" := discovered kwargs]> kwargs) in *.
  eapply (init_fixpoint _ _ (discovered kwargs) (VInt 1) n
                        (normalized ddfs kwargs items) scheduler max_cores);
    try done.
  - rewrite lookup_fields_known by known. by items.
  - rewrite lookup_fields_known by known. by items.
  - rewrite lookup_fields_known by known. by items.
  - rewrite lookup_fields_known by known. by items.
  - eapply set_nr_reduces_ext; [| | | exact Hset];
      rewrite item_fields by known; by items.
  - rewrite item_fields by known. items. by rewrite Hmp.
  - rewrite lookup_fields_known by known. by items.
  - rewrite lookup_fields_known, item_fields by known. items. by rewrite Hmap.
  - rewrite lookup_fields_known, item_fields by known. items. by rewrite Hred.
Qed.

(** The options that [pack] reads, in a specification built from
    transparent options. *)
Lemma init_left_out_items (ddfs : value) (kwargs S : gmap string value) :
  dom kwargs ⊆ JobDict.master_keys →
  init ddfs kwargs = Ok S →
  item S "required_files" = VDict ∅ ∧
  item S "required_modules" = discovered kwargs.
Proof.
  intros Hdom
    (items & n & n' & scheduler & max_cores & _ & -> & _)%init_Ok_stored.
  assert (item kwargs "required_modules" = VNone) as Hrm by left_out.
  assert (item kwargs "required_files" = VDict ∅) as Hrf by left_out.
  items. rewrite Hrm.
  change (if is_none VNone
          then <["required_modules" := discovered kwargs]> kwargs
          else kwargs)
    with (<["required_modules" := discovered kwargs]> kwargs).
  by items.
Qed.

(** *** Options that the constructor does not read, or writes over *)

(** [r], with [key] set to [v] in the dictionary it returns. *)
Local Notation and_then_insert key v r :=
  (r ≫= λ self' : gmap string value, Ok (<[key := v]> self')).

Lemma item_fmap_insert (self : gmap string value) (key : string) (v : value)
    (keys : list string) :
  key ∉ keys → item (<[key := v]> self) <$> keys = item self <$> keys.
Proof.
  intros Hkey. induction keys as [|k keys IH]; [done |].
  apply not_elem_of_cons in Hkey as [Hne Hkey].
  by rewrite !fmap_cons, item_insert_ne, IH.
Qed.

Lemma input_is_partitioned_insert (self : gmap string value) (key : string)
    (v : value) :
  key ≠ "input" →
  input_is_partitioned (<[key := v]> self) = input_is_partitioned self.
Proof.
  intros Hne. unfold JobDict.input_is_partitioned. known_keys. by items.
Qed.

Lemma set_required_modules_insert (self : gmap string value) (key : string)
    (v : value) :
  key ≠ "required_modules" → key ∉ JobDict.funcs →
  set_required_modules (<[key := v]> self)
  = and_then_insert key v (set_required_modules self).
Proof.
  intros Hne Hfuncs. rewrite !set_required_modules_spec, bind_Ok. items.
  unfold JobDict.discovered. rewrite item_fmap_insert by done.
  destruct (is_none _); [| done]. by rewrite insert_insert_ne.
Qed.

Lemma set_input_insert (ddfs : value) (self : gmap string value)
    (key : string) (v : value) :
  key ≠ "input" → key ≠ "map" →
  set_input ddfs (<[key := v]> self)
  = and_then_insert key v (set_input ddfs self).
Proof.
  intros Hinput Hmap. rewrite !set_input_spec. items.
  destruct (py_iter _) as [its|]; [| done]. rewrite !bind_Ok.
  unfold JobDict.normalized. items. by rewrite insert_insert_ne.
Qed.

Lemma set_partitions_insert (self : gmap string value) (key : string)
    (v : value) :
  key ≠ "partitions" →
  set_partitions (<[key := v]> self)
  = and_then_insert key v (set_partitions self).
Proof.
  intros Hne. rewrite !set_partitions_spec, bind_Ok. items.
  by rewrite insert_insert_ne.
Qed.

Lemma set_nr_reduces_insert (self : gmap string value) (key : string)
    (v : value) :
  key ≠ "map" → key ≠ "partitions" → key ≠ "input" → key ≠ "nr_reduces" →
  set_nr_reduces (<[key := v]> self)
  = and_then_insert key v (set_nr_reduces self).
Proof.
  intros Hmap Hp Hinput Hnr. unfold JobDict.set_nr_reduces. known_keys.
  rewrite input_is_partitioned_insert by done. items.
  destruct (truthy (item self "map")).
  { known_keys. by rewrite insert_insert_ne. }
  destruct (input_is_partitioned self) as [ip|]; [| done]. known_keys.
  destruct (truthy ip); last first.
  { known_keys. by rewrite insert_insert_ne. }
  known_keys. items.
  destruct (py_iter _) as [dirs|]; [| done]. known_keys.
  destruct (partition_ids dirs) as [ids|]; [| done]. known_keys.
  destruct (py_max ids) as [k|]; [| done]. known_keys.
  by rewrite insert_insert_ne.
Qed.

(** A number of reduces that is given is written over. *)
Lemma set_nr_reduces_given (self : gmap string value) (v : value) :
  set_nr_reduces (<["nr_reduces" := v]> self) = set_nr_reduces self.
Proof.
  unfold JobDict.set_nr_reduces. known_keys.
  rewrite input_is_partitioned_insert by done. items.
  destruct (truthy (item self "map")).
  { by rewrite insert_insert_eq. }
  destruct (input_is_partitioned self) as [ip|]; [| done]. known_keys.
  destruct (truthy ip); last first.
  { by rewrite insert_insert_eq. }
  known_keys. items.
  destruct (py_iter _) as [dirs|]; [| done]. known_keys.
  destruct (partition_ids dirs) as [ids|]; [| done]. known_keys.
  destruct (py_max ids) as [k|]; [| done]. known_keys.
  by rewrite insert_insert_eq.
Qed.

Lemma set_merge_partitions_insert (self : gmap string value) (key : string)
    (v : value) :
  key ≠ "merge_partitions" → key ≠ "partitions" → key ≠ "input" →
  key ≠ "nr_reduces" →
  set_merge_partitions (<[key := v]> self)
  = and_then_insert key v (set_merge_partitions self).
Proof.
  intros Hmp Hp Hinput Hnr. unfold JobDict.set_merge_partitions. known_keys.
  rewrite input_is_partitioned_insert by done. items.
  destruct (truthy (item self "merge_partitions")); [| done]. known_keys.
  items.
  destruct (truthy (item self "partitions")).
  { known_keys. by rewrite insert_insert_ne. }
  destruct (input_is_partitioned self) as [ip|]; [| done]. known_keys.
  destruct (truthy ip); [| done]. known_keys. by rewrite insert_insert_ne.
Qed.

Lemma set_scheduler_insert (self : gmap string value) (key : string)
    (v : value) :
  key ≠ "scheduler" →
  set_scheduler (<[key := v]> self)
  = and_then_insert key v (set_scheduler self).
Proof.
  intros Hne. rewrite !set_scheduler_spec. items.
  destruct (JobDict.merged_scheduler _) as [scheduler|]; [| done].
  rewrite !bind_Ok. destruct (scheduler !! "max_cores") as [mc|]; [| done].
  destruct (py_lt_int mc 1); [done |]. by rewrite bind_Ok, insert_insert_ne.
Qed.


(** The keys of the options that some step of the constructor reads or
    writes. *)
Local Notation constructor_keys :=
  (["input"; "partitions"; "merge_partitions"; "scheduler";
    "required_modules"; "nr_reduces"; "map?"; "reduce?"] ++ JobDict.funcs)%list.

Ltac split_keys H :=
  repeat (apply not_elem_of_cons in H as [? H]).


(** A value given for [nr_reduces], [map?] or [reduce?] is written over. *)
Lemma init_insert_derived (ddfs : value) (kwargs : gmap string value)
    (key : string) (v : value) :
  key ∈ ["nr_reduces"; "map?"; "reduce?"] →
  init ddfs (<[key := v]> kwargs) = init ddfs kwargs.
Proof.
  intros Hkey.
  assert (∀ k, k ∈ ["map?"; "reduce?"] → k ∉ JobDict.funcs) as Hflags.
  { intros k Hk. unfold JobDict.funcs.
    repeat (apply elem_of_cons in Hk as [-> | Hk]; [not_in_keys |]).
    by apply elem_of_nil in Hk. }
  unfold JobDict.init.
  apply elem_of_cons in Hkey as [-> | Hkey].
  { rewrite set_required_modules_insert; [| done |]; last first.
    { unfold JobDict.funcs. not_in_keys. }
    destruct (set_required_modules kwargs) as [s1|]; [| done].
    rewrite !bind_Ok, set_input_insert by done.
    destruct (set_input ddfs s1) as [s2|]; [| done].
    rewrite !bind_Ok, set_partitions_insert by done.
    destruct (set_partitions s2) as [s3|]; [| done].
    by rewrite !bind_Ok, set_nr_reduces_given. }
  assert (key ≠ "required_modules" ∧ key ≠ "input" ∧ key ≠ "map" ∧
          key ≠ "partitions" ∧ key ≠ "nr_reduces" ∧
          key ≠ "merge_partitions" ∧ key ≠ "scheduler") as
    (? & ? & ? & ? & ? & ? & ?).
  { repeat (apply elem_of_cons in Hkey as [-> | Hkey]; [done |]).
    by apply elem_of_nil in Hkey. }
  rewrite set_required_modules_insert by auto.
  destruct (set_required_modules kwargs) as [s1|]; [| done].
  rewrite !bind_Ok, set_input_insert by done.
  destruct (set_input ddfs s1) as [s2|]; [| done].
  rewrite !bind_Ok, set_partitions_insert by done.
  destruct (set_partitions s2) as [s3|]; [| done].
  rewrite !bind_Ok, set_nr_reduces_insert by done.
  destruct (set_nr_reduces s3) as [s4|]; [| done].
  rewrite !bind_Ok, set_merge_partitions_insert by done.
  destruct (set_merge_partitions s4) as [s5|]; [| done].
  rewrite !bind_Ok, set_scheduler_insert by done.
  destruct (set_scheduler s5) as [s6|]; [| done].
  rewrite !bind_Ok, !set_job_flow_spec.
  apply elem_of_cons in Hkey as [-> | Hkey].
  { items. by rewrite insert_insert_eq. }
  apply elem_of_cons in Hkey as [-> | Hkey]; [| by apply elem_of_nil in Hkey].
  items. rewrite (insert_insert_ne _ "map?" "reduce?") by done.
  by rewrite insert_insert_eq.
Qed.

(** *** What a constructed specification holds *)

(** X3. The constructor keeps every option it is given, but for the seven
    it stores itself, and the two job-flow flags it stores are the truth
    values of the [map] and [reduce] options, which it leaves as they
    are. *)
Theorem init_keeps_options (ddfs : value) (kwargs S : gmap string value) :
  init ddfs kwargs = Ok S →
  (∀ key, key ∉ ["required_modules"; "input"; "partitions"; "nr_reduces";
                 "scheduler"; "map?"; "reduce?"] →
          S !! key = kwargs !! key) ∧
  S !! "map?" = Some (VBool (truthy (item S "map"))) ∧
  S !! "reduce?" = Some (VBool (truthy (item S "reduce"))) ∧
  item S "map" = item kwargs "map" ∧
  item S "reduce" = item kwargs "reduce".
Proof.
  intros (items & n & n' & scheduler & max_cores & _ & -> & _)%init_Ok_stored.
  assert (∀ key, key ∉ ["required_modules"; "input"; "partitions";
                        "nr_reduces"; "scheduler"; "map?"; "reduce?"] →
    (<["reduce?" := VBool (truthy (item kwargs "reduce"))]>
       (<["map?" := VBool (truthy (item kwargs "map"))]>
          (<["scheduler" := VDict scheduler]>
             (<["nr_reduces" := n']> (prepared ddfs kwargs items))))) !! key
    = kwargs !! key) as Hframe.
  { intros key Hkey. split_keys Hkey.
    rewrite !lookup_insert_ne by done.
    destruct (is_none _); [by rewrite lookup_insert_ne | done]. }
  split; [done |].
  assert (∀ key, key ∈ ["map"; "reduce"] →
    item (<["reduce?" := VBool (truthy (item kwargs "reduce"))]>
            (<["map?" := VBool (truthy (item kwargs "map"))]>
               (<["scheduler" := VDict scheduler]>
                  (<["nr_reduces" := n']> (prepared ddfs kwargs items))))) key
    = item kwargs key) as Hitem.
  { intros key Hkey. unfold JobDict.item. rewrite Hframe; [done |].
    repeat (apply elem_of_cons in Hkey as [-> | Hkey]; [not_in_keys |]).
    by apply elem_of_nil in Hkey. }
  rewrite !Hitem by (repeat first [by left | right]).
  split; [by simplify_map_eq |]. split; [by simplify_map_eq |]. done.
Qed.

(** X4. In a constructed specification [partitions] is never [None]: it is
    the option given when that is true (a non-zero integer), and the
    integer 0 when the option is [None], 0 or otherwise false. *)
Theorem init_partitions (ddfs : value) (kwargs S : gmap string value) :
  init ddfs kwargs = Ok S →
  S !! "partitions" = Some (py_or (item kwargs "partitions") (VInt 0)) ∧
  (truthy (item kwargs "partitions") = true →
   S !! "partitions" = Some (item kwargs "partitions")) ∧
  (truthy (item kwargs "partitions") = false →
   S !! "partitions" = Some (VInt 0)) ∧
  S !! "partitions" ≠ Some VNone.
Proof.
  intros (items & n & n' & scheduler & max_cores & _ & -> & _)%init_Ok_stored.
  assert ((<["reduce?" := VBool (truthy (item kwargs "reduce"))]>
            (<["map?" := VBool (truthy (item kwargs "map"))]>
               (<["scheduler" := VDict scheduler]>
                  (<["nr_reduces" := n']> (prepared ddfs kwargs items)))))
          !! "partitions"
          = Some (py_or (item kwargs "partitions") (VInt 0))) as ->
    by (by simplify_map_eq).
  unfold py_or. split; [done |].
  destruct (truthy (item kwargs "partitions")) eqn:Hp.
  - split; [done |]. split; [done |]. intros [= Heq]. by rewrite Heq in Hp.
  - split; [done |]. split; [done |]. done.
Qed.

(** X5. The required modules of a constructed specification are the ones
    given when the option is not [None]; module discovery is consulted only
    when it is [None], and then sees nothing but callables. *)
Theorem init_required_modules (ddfs : value) (kwargs S : gmap string value) :
  init ddfs kwargs = Ok S →
  (is_none (item kwargs "required_modules") = false →
   S !! "required_modules" = kwargs !! "required_modules" ∧
   item S "required_modules" = item kwargs "required_modules") ∧
  (is_none (item kwargs "required_modules") = true →
   ∃ fs, Forall (λ f, callable f = true) fs ∧
         S !! "required_modules" = Some (VList (find_modules fs))) ∧
  is_none (item S "required_modules") = false.
Proof.
  intros (items & n & n' & scheduler & max_cores & _ & -> & _)%init_Ok_stored.
  assert ((<["reduce?" := VBool (truthy (item kwargs "reduce"))]>
            (<["map?" := VBool (truthy (item kwargs "map"))]>
               (<["scheduler" := VDict scheduler]>
                  (<["nr_reduces" := n']> (prepared ddfs kwargs items)))))
          !! "required_modules"
          = with_modules kwargs !! "required_modules") as Hlookup
    by (by rewrite !lookup_insert_ne).
  rewrite !Hlookup. items.
  destruct (is_none (item kwargs "required_modules")) eqn:Hnone.
  - split; [done |]. rewrite lookup_insert_eq. split; [| by items].
    intros _. eexists. split; [| done].
    apply Forall_forall. intros f Hf.
    by apply list_elem_of_filter in Hf as [Hf _].
  - split; [done |]. split; [done |]. by rewrite Hnone.
Qed.

(** X6. The scheduler policy of a constructed specification is complete:
    it is the dictionary that [update] makes of a copy of the default
    policy and the option given (a dictionary, or a sequence of pairs), it
    has every key of the default policy, the entries of an option that is a
    dictionary take precedence in it and its other keys have the defaults,
    and its [max_cores], when an integer, is at least 1. *)
Theorem init_scheduler_policy (ddfs : value) (kwargs S : gmap string value) :
  init ddfs kwargs = Ok S →
  ∃ scheduler,
    JobDict.merged_scheduler (item kwargs "scheduler") = Ok scheduler ∧
    S !! "scheduler" = Some (VDict scheduler) ∧
    (∀ key, key ∈ ["force_local"; "force_remote"; "max_cores"] →
            is_Some (scheduler !! key)) ∧
    (∀ other, item kwargs "scheduler" = VDict other →
              (∀ key v, other !! key = Some v → scheduler !! key = Some v) ∧
              (∀ key, other !! key = None →
                      scheduler !! key = JobDict.default_scheduler !! key)) ∧
    (∀ m, scheduler !! "max_cores" = Some (VInt m) → (1 ≤ m)%Z).
Proof.
  intros (self & scheduler & max_cores & _ & Hsched & Hmc & Hlt & ->)
    %init_Ok_inv.
  exists scheduler. split; [done |]. split; [by simplify_map_eq |].
  split; [| split].
  - intros key Hkey. apply elem_of_dom, (py_update_dom _ _ _ Hsched).
    apply elem_of_dom.
    repeat (apply elem_of_cons in Hkey as [-> | Hkey];
            [vm_compute; by eauto |]).
    by apply elem_of_nil in Hkey.
  - intros other Hother. rewrite Hother in Hsched. injection Hsched as <-.
    split.
    + intros key v Hkey. by apply lookup_union_Some_l.
    + intros key Hkey. by rewrite lookup_union_r.
  - intros m Hm. rewrite Hm in Hmc. injection Hmc as <-. simpl in Hlt.
    by apply Z.ltb_ge in Hlt.
Qed.

(** *** Constructing a constructed specification again *)

Lemma py_or_again (p d : value) :
  truthy d = false → py_or (py_or p d) d = py_or p d.
Proof.
  intros Hd. unfold py_or. destruct (truthy p) eqn:Hp; [by rewrite Hp |].
  by rewrite Hd.
Qed.

(** The check of [merge_partitions] depends on [merge_partitions],
    [partitions] and [input] only. *)
Lemma set_merge_partitions_ext (a b : gmap string value) (n n' : value) :
  item a "merge_partitions" = item b "merge_partitions" →
  item a "partitions" = item b "partitions" →
  item a "input" = item b "input" →
  set_merge_partitions (<["nr_reduces" := n]> a)
  = Ok (<["nr_reduces" := n']> a) →
  set_merge_partitions (<["nr_reduces" := n]> b)
  = Ok (<["nr_reduces" := n']> b).
Proof.
  intros Hmp Hp Hi. unfold JobDict.set_merge_partitions. known_keys.
  rewrite !input_is_partitioned_insert by done. items.
  unfold JobDict.input_is_partitioned. known_keys. rewrite Hmp, Hp, Hi.
  destruct (truthy (item b "merge_partitions")); last first.
  { by intros [= ->%insert_eq_inv]. }
  known_keys.
  assert (∀ m : gmap string value,
            Ok (<["nr_reduces" := VInt 1]> (<["nr_reduces" := n]> a))
            = Ok (<["nr_reduces" := n']> a) →
            Ok (<["nr_reduces" := VInt 1]> (<["nr_reduces" := n]> b))
            = Ok (<["nr_reduces" := n']> b) :> result (gmap string value))
    as Hone.
  { intros _. rewrite !insert_insert_eq. by intros [= ->%insert_eq_inv]. }
  destruct (truthy (item b "partitions")).
  { known_keys. by apply Hone. }
  destruct (truthy (item b "input")); known_keys; [| done].
  destruct (py_iter (item b "input")) as [entries|]; [| done]. known_keys.
  destruct (JobDict.all_dir entries) as [[|]|]; known_keys; try done.
  by apply Hone.
Qed.

(** The steps that a successful construction has gone through. *)
Lemma init_Ok_steps (ddfs : value) (kwargs S : gmap string value) :
  init ddfs kwargs = Ok S →
  ∃ items n n' scheduler max_cores,
    S = <["reduce?" := VBool (truthy (item kwargs "reduce"))]>
          (<["map?" := VBool (truthy (item kwargs "map"))]>
             (<["scheduler" := VDict scheduler]>
                (<["nr_reduces" := n']> (prepared ddfs kwargs items)))) ∧
    set_nr_reduces (prepared ddfs kwargs items)
    = Ok (<["nr_reduces" := n]> (prepared ddfs kwargs items)) ∧
    set_merge_partitions (<["nr_reduces" := n]> (prepared ddfs kwargs items))
    = Ok (<["nr_reduces" := n']> (prepared ddfs kwargs items)) ∧
    scheduler ∪ JobDict.default_scheduler = scheduler ∧
    scheduler !! "max_cores" = Some max_cores ∧
    py_lt_int max_cores 1 = false.
Proof.
  intros (self & scheduler & max_cores & Hself & Hsched & Hmc & Hlt & ->)
    %init_Ok_inv.
  unfold JobDict.before_scheduler in Hself.
  apply bind_Ok_inv in Hself as (s4 & Hs4 & Hmerge).
  pose proof Hs4 as Hset.
  apply derive_Ok_inv in Hs4 as (items & n & Hitems & -> & _).
  rewrite derive_spec, Hitems, bind_Ok in Hset.
  assert (∃ n', self = <["nr_reduces" := n']> (prepared ddfs kwargs items))
    as [n' ->].
  { destruct (truthy (item kwargs "merge_partitions")) eqn:Hmp.
    - pose proof Hmerge as Hon.
      rewrite set_merge_partitions_on in Hon
        by (items; by rewrite item_with_modules).
      apply bind_Ok_inv in Hon as ([|] & _ & Hon); [| done].
      injection Hon as <-. exists (VInt 1). by rewrite insert_insert_eq.
    - pose proof Hmerge as Hoff.
      rewrite set_merge_partitions_off in Hoff
        by (items; by rewrite item_with_modules).
      injection Hoff as <-. by exists n. }
  exists items, n, n', scheduler, max_cores.
  do 3 (split; [done |]). split; [| done].
  by apply py_update_keeps in Hsched.
Qed.

(** A dictionary that holds what the constructor would store is constructed
    as it is, whether or not [merge_partitions] is requested. *)
Lemma init_fixpoint_merge (ddfs : value) (V : gmap string value)
    (rm p n n' : value) (ess : list (list value))
    (scheduler : gmap string value) (max_cores : value) :
  (∀ l listdirs d, urllist (VList l) listdirs d = [VList l]) →
  V !! "required_modules" = Some rm → is_none rm = false →
  V !! "input" = Some (JobDict.input_value ess) →
  V !! "partitions" = Some p → py_or p (VInt 0) = p →
  V !! "nr_reduces" = Some n' →
  set_nr_reduces V = Ok (<["nr_reduces" := n]> V) →
  set_merge_partitions (<["nr_reduces" := n]> V)
  = Ok (<["nr_reduces" := n']> V) →
  V !! "scheduler" = Some (VDict scheduler) →
  scheduler ∪ JobDict.default_scheduler = scheduler →
  scheduler !! "max_cores" = Some max_cores →
  py_lt_int max_cores 1 = false →
  V !! "map?" = Some (VBool (truthy (item V "map"))) →
  V !! "reduce?" = Some (VBool (truthy (item V "reduce"))) →
  init ddfs V = Ok V.
Proof.
  intros Hpass Hrm Hnone Hinp Hp Hpor Hn Hnr Hmp Hs Hsu Hmc Hlt Hmap Hred.
  unfold JobDict.init.
  rewrite set_required_modules_spec, (item_lookup _ _ _ Hrm), Hnone, bind_Ok.
  rewrite set_input_spec, (item_lookup _ _ _ Hinp).
  change (py_iter (JobDict.input_value ess)) with (Ok (VList <$> ess)).
  rewrite bind_Ok, (normalized_lists _ _ _ Hpass).
  rewrite (insert_id _ _ _ Hinp), bind_Ok.
  rewrite set_partitions_spec, (item_lookup _ _ _ Hp), Hpor.
  rewrite (insert_id _ _ _ Hp), bind_Ok.
  rewrite Hnr, bind_Ok, Hmp, (insert_id _ _ _ Hn), bind_Ok.
  rewrite set_scheduler_spec, (item_lookup _ _ _ Hs).
  change (JobDict.merged_scheduler (VDict scheduler))
    with (Ok (scheduler ∪ JobDict.default_scheduler)).
  rewrite bind_Ok, Hsu, Hmc, Hlt, (insert_id _ _ _ Hs), bind_Ok.
  rewrite set_job_flow_spec. f_equal.
  rewrite (insert_id _ _ _ Hmap). by rewrite (insert_id _ _ _ Hred).
Qed.

(** X7. Construction is idempotent: when the resolver returns a list of
    addresses as it is, constructing from a constructed specification (as
    [unpack] does from a decoded one) succeeds and returns that very
    specification, whatever storage context is given. *)
Theorem init_idempotent (ddfs ddfs' : value) (kwargs S : gmap string value) :
  (∀ l listdirs d, urllist (VList l) listdirs d = [VList l]) →
  init ddfs kwargs = Ok S →
  init ddfs' S = Ok S.
Proof.
  intros Hpass
    (items & n & n' & scheduler & max_cores & -> & Hset & Hmerge & Hsu & Hmc
     & Hlt)%init_Ok_steps.
  assert (∃ rm, with_modules kwargs !! "required_modules" = Some rm ∧
                is_none rm = false) as (rm & Hrm & Hnone).
  { destruct (is_none (item kwargs "required_modules")) eqn:Hnone.
    - eexists. by rewrite lookup_insert_eq.
    - unfold JobDict.item in Hnone.
      destruct (kwargs !! "required_modules") as [rm|] eqn:Hrm; [by eauto |].
      by vm_compute in Hnone. }
  eapply (init_fixpoint_merge _ _ rm
            (py_or (item kwargs "partitions") (VInt 0)) n n'
            (normalized ddfs kwargs items) scheduler max_cores);
    try done.
  - by rewrite !lookup_insert_ne.
  - by simplify_map_eq.
  - by simplify_map_eq.
  - by apply py_or_again.
  - by simplify_map_eq.
  - eapply set_nr_reduces_ext; [| | | exact Hset]; by items.
  - eapply set_merge_partitions_ext; [| | | exact Hmerge]; by items.
  - by simplify_map_eq.
  - rewrite lookup_insert_ne, lookup_insert_eq by done. items.
    by rewrite item_with_modules.
  - rewrite lookup_insert_eq. items. by rewrite item_with_modules.
Qed.

(** *** When construction fails and when it succeeds *)

Lemma partition_ids_empty_entry (ess : list (list value)) :
  Exists (λ urls, urls = []) ess →
  partition_ids (VList <$> ess) = Raise IndexError.
Proof.
  induction ess as [|urls ess IH]; intros Hex; [by apply Exists_nil in Hex |].
  destruct urls as [|url urls]; [done |].
  change (partition_ids (VList <$> (url :: urls) :: ess))
    with (ids ← partition_ids (VList <$> ess);
          Ok ((read_index url).*1 ++ ids)%list).
  apply Exists_cons in Hex as [Hex | Hex]; [done |]. by rewrite IH.
Qed.

Lemma py_max_of_is_max (ids : list Z) (k : Z) :
  JobDict.is_max ids k → py_max ids = Ok k.
Proof.
  intros Hk. destruct (py_max ids) as [k'|e] eqn:Hmax.
  - f_equal. apply py_max_is_max in Hmax. by eapply is_max_unique.
  - destruct ids; [| done]. destruct Hk as [Hin _]. by apply elem_of_nil in Hin.
Qed.

Lemma init_derive_Raise (ddfs : value) (kwargs : gmap string value) (e : exn) :
  derive ddfs kwargs = Raise e → init ddfs kwargs = Raise e.
Proof. intros He. by rewrite init_derive, He. Qed.

(** X8. A reduce without map over partitioned input reads the index of the
    first address of every entry. Construction raises [IndexError] when
    some entry has no address, [ValueError] when every entry has one but
    the indices hold no partition at all, and otherwise derives one more
    reduce than the largest partition index. *)
Theorem init_reduce_only_partitioned (ddfs : value)
    (kwargs : gmap string value) (items : list value) :
  truthy (item kwargs "map") = false →
  py_iter (item kwargs "input") = Ok items →
  JobDict.partitioned (normalized ddfs kwargs items) →
  (Exists (λ urls, urls = []) (normalized ddfs kwargs items) →
   init ddfs kwargs = Raise IndexError) ∧
  (Forall (λ urls, urls ≠ []) (normalized ddfs kwargs items) →
   index_ids (normalized ddfs kwargs items) = [] →
   init ddfs kwargs = Raise ValueError) ∧
  (Forall (λ urls, urls ≠ []) (normalized ddfs kwargs items) →
   ∀ k, JobDict.is_max (index_ids (normalized ddfs kwargs items)) k →
        ∃ self, derive ddfs kwargs = Ok self ∧
                self !! "nr_reduces" = Some (VInt (1 + k))).
Proof.
  intros Hmap Hitems Hpart.
  assert (derive ddfs kwargs
          = (ids ← partition_ids (VList <$> normalized ddfs kwargs items);
             k ← py_max ids;
             Ok (<["nr_reduces" := VInt (1 + k)]>
                   (prepared ddfs kwargs items)))) as Hderive.
  { rewrite derive_spec, Hitems, bind_Ok.
    eapply set_nr_reduces_partitioned.
    - items. by rewrite item_with_modules.
    - by apply (input_is_partitioned_yes _ _ (item_input_prepared _ _ _)).
    - done.
    - by items. }
  split; [| split].
  - intros Hex. apply init_derive_Raise.
    by rewrite Hderive, partition_ids_empty_entry.
  - intros Hne Hids. apply init_derive_Raise.
    by rewrite Hderive, partition_ids_spec, bind_Ok, Hids.
  - intros Hne k Hk. eexists. split.
    + by rewrite Hderive, partition_ids_spec, bind_Ok, (py_max_of_is_max _ k),
        bind_Ok.
    + by rewrite lookup_insert_eq.
Qed.

(** X9. The input option has to be a sequence: construction raises
    [TypeError] for [None], a number, a function or a parameter bag. A
    bare string is taken character by character: with a resolver that
    returns what it is given, every character becomes an input of its
    own. *)
Theorem init_input_shape (ddfs : value) (kwargs : gmap string value) :
  (match item kwargs "input" with
   | VNone | VBool _ | VInt _ | VFunc _ | VParams _ => True
   | _ => False
   end →
   init ddfs kwargs = Raise TypeError) ∧
  (∀ s S,
     item kwargs "input" = VStr s →
     (∀ c, c ∈ chars s → urllist c (truthy (item kwargs "map")) ddfs = [c]) →
     init ddfs kwargs = Ok S →
     S !! "input"
     = Some (JobDict.input_value ((λ c, [c]) <$> chars s))).
Proof.
  split.
  - intros Hshape. apply init_derive_Raise. rewrite derive_spec.
    by destruct (item kwargs "input").
  - intros s S Hs Hplain
      (items & n & n' & Hitems & -> & _)%init_Ok_fields.
    rewrite Hs in Hitems. injection Hitems as <-. do 2 f_equal.
    unfold JobDict.normalized.
    assert (∀ cs : list value,
              (∀ c, c ∈ cs → urllist c (truthy (item kwargs "map")) ddfs = [c]) →
              (∀ c, c ∈ cs → isiterable c = false) →
              entry_of <$> flat_map
                (λ i, urllist i (truthy (item kwargs "map")) ddfs) cs
              = (λ c, [c]) <$> cs) as Hchars.
    { induction cs as [|c cs IH]; intros Hres Hsingle; [done |].
      simpl. rewrite (Hres c) by left. simpl.
      rewrite entry_of_single by (apply Hsingle; left). f_equal.
      apply IH; intros c' Hc'; [apply Hres | apply Hsingle]; by right. }
    apply Hchars; [done |]. clear. induction s as [|a s IH]; intros c Hc.
    + by apply elem_of_nil in Hc.
    + apply elem_of_cons in Hc as [-> | Hc]; [done | by apply IH].
Qed.

(** X10. With a map function construction reads no index, and succeeds
    whenever the input is a sequence, the scheduler policy is accepted and
    [merge_partitions] is either not requested or comes with partitions;
    the number of reduces is then 1 when merging and the partitions (1 for
    none) otherwise. *)
Theorem init_with_map_succeeds (ddfs : value) (kwargs : gmap string value)
    (items : list value) :
  truthy (item kwargs "map") = true →
  py_iter (item kwargs "input") = Ok items →
  valid_scheduler kwargs →
  truthy (item kwargs "merge_partitions") = false ∨
  truthy (item kwargs "partitions") = true →
  ∃ S, init ddfs kwargs = Ok S ∧
       S !! "nr_reduces"
       = Some (if truthy (item kwargs "merge_partitions") then VInt 1
               else py_or (py_or (item kwargs "partitions") (VInt 0))
                          (VInt 1)).
Proof.
  intros Hmap Hitems Hvalid Hmerge.
  assert (derive ddfs kwargs
          = Ok (<["nr_reduces" := py_or (py_or (item kwargs "partitions")
                                               (VInt 0)) (VInt 1)]>
                  (prepared ddfs kwargs items))) as Hderive.
  { rewrite derive_spec, Hitems, bind_Ok, set_nr_reduces_map.
    - by items.
    - items. by rewrite item_with_modules. }
  assert (∃ self, before_scheduler ddfs kwargs = Ok self ∧
                  self !! "nr_reduces"
                  = Some (if truthy (item kwargs "merge_partitions")
                          then VInt 1
                          else py_or (py_or (item kwargs "partitions")
                                            (VInt 0)) (VInt 1)))
    as (self & Hself & Hnr).
  { unfold JobDict.before_scheduler. rewrite Hderive, bind_Ok.
    destruct (truthy (item kwargs "merge_partitions")) eqn:Hmp.
    - destruct Hmerge as [? | Hp]; [done |].
      rewrite set_merge_partitions_on
        by (items; by rewrite item_with_modules).
      items.
      assert (truthy (py_or (item kwargs "partitions") (VInt 0)) = true)
        as -> by (unfold py_or; by rewrite Hp).
      rewrite bind_Ok. eexists. split; [done |]. by rewrite lookup_insert_eq.
    - rewrite set_merge_partitions_off
        by (items; by rewrite item_with_modules).
      eexists. split; [done |]. by rewrite lookup_insert_eq. }
  destruct (init_Ok_intro _ _ _ Hself Hvalid) as (scheduler & _ & ->).
  eexists. split; [done |]. by rewrite !lookup_insert_ne.
Qed.

End Construction.

(** ** Packing and unpacking *)

Section Packing.
Variables jobhome worker owner version : value.
Variable urllist : value → bool → value → list value.
Variable read_index : value → list (Z * value).
Variable find_modules : list value → list value.
Variable util_pack : value → value.
Variable util_unpack : value → value.
Variable pack_files : list value → gmap string value.
Variable wire : Type.
Variable dumps : gmap string value → wire.
Variable loads : wire → gmap string value.

Local Notation defaults := (JobDict.defaults jobhome worker owner version).
Local Notation getitem := (JobDict.getitem jobhome worker owner version).
Local Notation item := (JobDict.item jobhome worker owner version).
Local Notation fields := (JobDict.fields jobhome worker owner version).
Local Notation init :=
  (JobDict.init jobhome worker owner version urllist read_index find_modules).
Local Notation set_required_files :=
  (JobDict.set_required_files jobhome worker owner version pack_files).
Local Notation module_files := (JobDict.module_files pack_files).
Local Notation resolved_files := (JobDict.resolved_files pack_files).
Local Notation jobpack_of :=
  (JobDict.jobpack_of jobhome worker owner version util_pack).
Local Notation pack :=
  (JobDict.pack jobhome worker owner version util_pack pack_files wire dumps).
Local Notation decoded :=
  (JobDict.decoded jobhome worker owner version util_unpack wire loads).
Local Notation unpack :=
  (JobDict.unpack jobhome worker owner version urllist read_index find_modules
                  util_unpack wire loads).

Ltac run :=
  repeat first
    [ rewrite getitem_known by (repeat first [by left | right])
    | rewrite bind_Ok
    | rewrite bind_Raise
    | rewrite item_insert_eq
    | rewrite item_insert_ne by done ].

Lemma set_required_files_spec (self : gmap string value) :
  set_required_files self
  = (files ← resolved_files (item self "required_files");
     mods ← py_iter (item self "required_modules");
     Ok (<["required_files" := VDict (module_files mods ∪ files)]> self)).
Proof.
  unfold JobDict.set_required_files, JobDict.resolved_files. run.
  destruct (truthy (item self "required_files")) eqn:Htrue; last first.
  { run. destruct (py_iter _); [| done]. run. by rewrite insert_insert_eq. }
  destruct (item self "required_files") as [| | | | | |files| |] eqn:Hrf;
    cbn [py_iter is_dict]; run; try done.
  - destruct (py_iter _); [| done]. run. by rewrite insert_insert_eq.
  - destruct (py_iter _); [| done]. run. by rewrite insert_insert_eq.
  - destruct (py_iter _); [| done]. run. by rewrite insert_insert_eq.
  - by rewrite Hrf.
Qed.


(** What [pack] returns. *)
Lemma pack_Ok_inv (self self' : gmap string value) (jobpack : wire) :
  pack self = Ok (jobpack, self') →
  ∃ files mods,
    resolved_files (item self "required_files") = Ok files ∧
    py_iter (item self "required_modules") = Ok mods ∧
    self' = <["required_files" := VDict (module_files mods ∪ files)]> self ∧
    jobpack = dumps (jobpack_of self').
Proof.
  unfold JobDict.pack. rewrite set_required_files_spec.
  intros (s & Hs & [= <- <-])%bind_Ok_inv.
  apply bind_Ok_inv in Hs as (files & Hfiles & Hs).
  apply bind_Ok_inv in Hs as (mods & Hmods & [= <-]).
  by exists files, mods.
Qed.


Lemma decoded_jobpack (self : gmap string value) :
  (∀ v, util_unpack (util_pack v) = v) →
  (∀ r, loads (dumps r) = r) →
  decoded (dumps (jobpack_of self)) = fields self.
Proof.
  intros Hcodec Hwire. apply map_eq. intros key.
  unfold JobDict.decoded, JobDict.jobpack_of, JobDict.fields.
  rewrite Hwire, map_lookup_imap, lookup_union, !map_lookup_imap.
  destruct (defaults !! key) as [d|]; [| done]. simpl.
  case_bool_decide; by rewrite ?Hcodec.
Qed.

(** The record of [pack] carries neither [self] nor [ddfs]: [unpack] of
    it is the constructor on its fields, with [ddfs=None]. *)
Lemma unpack_jobpack_of (self : gmap string value) :
  (∀ v, util_unpack (util_pack v) = v) →
  (∀ r, loads (dumps r) = r) →
  unpack (dumps (jobpack_of self)) = init VNone (fields self).
Proof.
  intros Hcodec Hwire. unfold JobDict.unpack. cbv zeta.
  rewrite (decoded_jobpack _ Hcodec Hwire).
  assert (defaults !! "self" = None) as Hself by (by vm_compute).
  assert (defaults !! "ddfs" = None) as Hddfs by (by vm_compute).
  assert (fields self !! "self" = None) as Hs
    by (by rewrite lookup_fields, Hself).
  assert (fields self !! "ddfs" = None) as Hd
    by (by rewrite lookup_fields, Hddfs).
  rewrite bool_decide_eq_false_2 by (rewrite Hs; by intros [? ?]).
  by rewrite Hd, delete_id.
Qed.

(** What [unpack] returns has passed the checks of the constructor. *)
Lemma unpack_checked (jobpack : wire) (S : gmap string value) :
  unpack jobpack = Ok S →
  (∃ ddfs, unpack jobpack = init ddfs (delete "ddfs" (decoded jobpack))) ∧
  JobDict.checked jobhome worker owner version S.
Proof.
  unfold JobDict.unpack. cbv zeta. case_bool_decide; [done |].
  intros HS. split; [by eexists |]. by eapply init_checked.
Qed.

(** C2, as amended. For a specification [S] built from overrides of
    transparent keys only, with a codec and a wire format that decode what
    they encode and a resolver that returns a list of addresses as it is:
    [pack] succeeds, [unpack] of its bytes succeeds, and the specification
    [S2] it returns holds, for every key of the defaults, the value that
    the packed specification has for it. For every key but
    [required_files] that is the value that [S] had before [pack]; for
    [required_files], unset in [S], it is the dictionary of the files of
    the required modules, which [pack] adds, and [S2] equals [S]
    field for field when there are no such files. [unpack] returns what
    the constructor makes of the decoded record, so that whatever it
    returns has passed the checks of the constructor. *)
Theorem pack_unpack_roundtrip (ddfs : value) (kwargs S : gmap string value) :
  (∀ v, util_unpack (util_pack v) = v) →
  (∀ r, loads (dumps r) = r) →
  (∀ l listdirs d, urllist (VList l) listdirs d = [VList l]) →
  dom kwargs ⊆ JobDict.master_keys →
  init ddfs kwargs = Ok S →
  (∃ jobpack S1 S2,
     pack S = Ok (jobpack, S1) ∧
     unpack jobpack = Ok S2 ∧
     (∀ key, is_Some (defaults !! key) →
             S2 !! key = Some (item S1 key) ∧ item S2 key = item S1 key) ∧
     (∀ key, key ≠ "required_files" → item S1 key = item S key) ∧
     item S "required_files" = VDict ∅ ∧
     (∃ mods, item S "required_modules" = VList mods ∧
              item S1 "required_files" = VDict (module_files mods) ∧
              item S2 "required_files" = VDict (module_files mods) ∧
              (module_files mods = ∅ →
               ∀ key, is_Some (defaults !! key) →
                      item S2 key = item S key)) ∧
     (∀ key, is_Some (defaults !! key) → key ≠ "required_files" →
             item S2 key = item S key)) ∧
  (∀ jobpack S', unpack jobpack = Ok S' →
                 (∃ ddfs', unpack jobpack
                           = init ddfs' (delete "ddfs" (decoded jobpack))) ∧
                 JobDict.checked jobhome worker owner version S').
Proof.
  intros Hcodec Hwire Hpass Hdom HS. split; last first.
  { intros jobpack S' HS'. by apply unpack_checked. }
  destruct (init_left_out_items _ _ _ _ _ _ _ _ _ _ Hdom HS) as [Hrf Hrm].
  eexists _, _, _.
  split; [| split; [| split; [| split; [| split; [| split]]]]].
  - unfold JobDict.pack. rewrite set_required_files_spec, Hrf, Hrm.
    by unfold JobDict.resolved_files, JobDict.discovered.
  - rewrite (unpack_jobpack_of _ Hcodec Hwire).
    by eapply init_fields_again.
  - intros key Hkey. split.
    + by apply lookup_fields_known.
    + by apply item_fields.
  - intros key Hkey. by rewrite item_insert_ne.
  - done.
  - eexists. split; [exact Hrm |].
    assert (is_Some (defaults !! "required_files")) as Hkey
      by (vm_compute; eauto).
    split; [by rewrite item_insert_eq, (right_id_L ∅ (∪)) |].
    split; [by rewrite item_fields, item_insert_eq, (right_id_L ∅ (∪)) |].
    intros Hnone key Hdef. rewrite item_fields by done.
    destruct (decide (key = "required_files")) as [-> | Hne].
    + by rewrite item_insert_eq, (right_id_L ∅ (∪)), Hnone, Hrf.
    + by rewrite item_insert_ne.
  - intros key Hdef Hne. rewrite item_fields by done.
    by rewrite item_insert_ne.
Qed.

(** *** More on [pack] and [unpack] *)

Lemma master_keys_defaults (key : string) :
  key ∈ JobDict.master_keys → is_Some (defaults !! key).
Proof.
  unfold JobDict.master_keys. rewrite elem_of_list_to_set. intros Hkey.
  repeat (apply elem_of_cons in Hkey as [-> | Hkey]; [vm_compute; eauto |]).
  by apply elem_of_nil in Hkey.
Qed.

Lemma lookup_jobpack_of (self : gmap string value) (key : string) :
  jobpack_of self !! key
  = match defaults !! key with
    | Some _ => Some (if bool_decide (key ∈ JobDict.master_keys)
                      then item self key
                      else util_pack (item self key))
    | None => None
    end.
Proof.
  unfold JobDict.jobpack_of, JobDict.item. rewrite map_lookup_imap.
  by destruct (defaults !! key).
Qed.

(** X11. The record that [pack] puts on the wire has exactly the keys of the
    default table, whatever else the specification stores: a master key
    with the value of the packed specification as it is, every other key
    with that value encoded. *)
Theorem pack_record (self self' : gmap string value) (jobpack : wire) :
  pack self = Ok (jobpack, self') →
  ∃ record,
    jobpack = dumps record ∧
    dom record = dom defaults ∧
    (∀ key, key ∈ JobDict.master_keys →
            record !! key = Some (item self' key)) ∧
    (∀ key, key ∉ JobDict.master_keys → is_Some (defaults !! key) →
            record !! key = Some (util_pack (item self' key))) ∧
    (∀ key, defaults !! key = None → record !! key = None).
Proof.
  intros (files & mods & _ & _ & -> & ->)%pack_Ok_inv.
  eexists. split; [done |]. split; [| split; [| split]].
  - apply set_eq. intros key. rewrite !elem_of_dom, lookup_jobpack_of.
    destruct (defaults !! key); [| done]. split; by eauto.
  - intros key Hkey. rewrite lookup_jobpack_of.
    destruct (master_keys_defaults key Hkey) as [d ->].
    by rewrite bool_decide_eq_true_2.
  - intros key Hkey [d Hd]. rewrite lookup_jobpack_of, Hd.
    by rewrite bool_decide_eq_false_2.
  - intros key Hkey. by rewrite lookup_jobpack_of, Hkey.
Qed.

(** X2. The derived fields cannot be set from outside: a value given for
    [nr_reduces], [map?] or [reduce?] is written over, so that construction
    with it is construction without it, and so is [unpack] of a record that
    carries it (the wire format decoding what it encodes). *)
Theorem derived_fields_given (ddfs : value) (kwargs record : gmap string value)
    (key : string) (v : value) :
  key ∈ ["nr_reduces"; "map?"; "reduce?"] →
  init ddfs (<[key := v]> kwargs) = init ddfs kwargs ∧
  ((∀ r, loads (dumps r) = r) →
   unpack (dumps (<[key := v]> record)) = unpack (dumps record)).
Proof.
  intros Hkey. split; [by apply init_insert_derived |].
  intros Hwire.
  assert (key ∈ JobDict.master_keys) as Hmaster.
  { unfold JobDict.master_keys. rewrite elem_of_list_to_set.
    pose proof Hkey as Hin.
    repeat (apply elem_of_cons in Hin as [-> | Hin];
            [repeat first [by left | right] |]).
    by apply elem_of_nil in Hin. }
  assert (key ≠ "self" ∧ key ≠ "ddfs") as [Hself Hddfs].
  { pose proof Hkey as Hin.
    repeat (apply elem_of_cons in Hin as [-> | Hin]; [done |]).
    by apply elem_of_nil in Hin. }
  assert (decoded (dumps (<[key := v]> record))
          = <[key := v]> (decoded (dumps record))) as Hdecoded.
  { unfold JobDict.decoded. rewrite !Hwire, <- insert_union_l.
    by rewrite (map_imap_insert_Some _ _ _ _ v)
      by (by rewrite bool_decide_eq_true_2). }
  unfold JobDict.unpack. cbv zeta. rewrite Hdecoded.
  rewrite !lookup_insert_ne, delete_insert_ne by done.
  case_bool_decide; [done |]. by apply init_insert_derived.
Qed.

End Packing.

(** ** Parameter bags *)

Section Bags.
Variable util_pack : value → value.
Variable util_unpack : value → value.

Local Notation getstate := (Params.getstate util_pack).
Local Notation setstate := (Params.setstate util_unpack).

Lemma lookup_getstate (dict : gmap string value) (k : string) :
  getstate dict !! k
  = if Params.private k then None else util_pack <$> dict !! k.
Proof.
  unfold Params.getstate. rewrite lookup_fmap, map_lookup_filter.
  destruct (dict !! k) as [v|]; simpl; [| by destruct (Params.private k)].
  destruct (Params.private k) eqn:Hk.
  - rewrite option_guard_False; [done |]. simpl. congruence.
  - by rewrite option_guard_True.
Qed.

(** C7. The state captured from a parameter bag holds exactly the
    attribute names that do not start with an underscore, each with its
    value encoded; restoring that state into a new bag gives, when the
    codec decodes what it encodes, the bag of the attributes that are not
    private, under their names and with their values. *)
Theorem params_capture_restore (dict : gmap string value) :
  (∀ v, util_unpack (util_pack v) = v) →
  (∀ k, k ∈ dom (getstate dict) ↔ k ∈ dom dict ∧ Params.private k = false) ∧
  (∀ k v, dict !! k = Some v → Params.private k = false →
          getstate dict !! k = Some (util_pack v)) ∧
  setstate ∅ (getstate dict) = filter (λ kv, Params.private kv.1 = false) dict ∧
  (∀ k v, dict !! k = Some v → Params.private k = false →
          setstate ∅ (getstate dict) !! k = Some v) ∧
  (∀ k, Params.private k = true → setstate ∅ (getstate dict) !! k = None).
Proof.
  intros Hcodec.
  assert (∀ k, setstate ∅ (getstate dict) !! k
               = if Params.private k then None else dict !! k) as Hlookup.
  { intros k. unfold Params.setstate.
    rewrite (right_id_L ∅ (∪)), lookup_fmap, lookup_getstate.
    destruct (Params.private k); [done |].
    destruct (dict !! k); simpl; by rewrite ?Hcodec. }
  split; [| split; [| split; [| split]]].
  - intros k. rewrite !elem_of_dom, lookup_getstate.
    destruct (Params.private k), (dict !! k); simpl;
      split; try done; try (by intros [? ?]); try (by intros [[] _]);
      by intros [? [=]]%proj1 || (intros []; done).
  - intros k v Hk Hpub. by rewrite lookup_getstate, Hpub, Hk.
  - apply map_eq. intros k. rewrite Hlookup, map_lookup_filter.
    destruct (dict !! k) as [v|]; simpl; [| by destruct (Params.private k)].
    destruct (Params.private k) eqn:Hk.
    + rewrite option_guard_False; [done |]. simpl. congruence.
    + by rewrite option_guard_True.
  - intros k v Hk Hpub. by rewrite Hlookup, Hpub.
  - intros k Hpriv. by rewrite Hlookup, Hpriv.
Qed.

Lemma lookup_setstate (dict state : gmap string value) (k : string) :
  setstate dict state !! k
  = match state !! k with
    | Some v => Some (util_unpack v)
    | None => dict !! k
    end.
Proof.
  unfold Params.setstate. rewrite lookup_union, lookup_fmap.
  by destruct (state !! k), (dict !! k).
Qed.

(** X15. A copy of a parameter bag captures the same state as the bag:
    with a codec that decodes what it encodes, the state captured from a
    bag restored from a captured state is that state, however often the
    bag is copied from task to task. *)
Theorem params_copy_state (dict : gmap string value) :
  (∀ v, util_unpack (util_pack v) = v) →
  getstate (setstate ∅ (getstate dict)) = getstate dict.
Proof.
  intros Hcodec. apply map_eq. intros k.
  rewrite !lookup_getstate, lookup_setstate, lookup_getstate, lookup_empty.
  destruct (Params.private k); [done |].
  destruct (dict !! k) as [v|]; simpl; by rewrite ?Hcodec.
Qed.

End Bags.

(** * The job handle

    A [Job.JobDict] looks an option up on its job before the defaults, so
    that it is the [JobDict] which also holds the attributes of the job
    that carry the name of an option. *)

Section Jobs.
Variables jobhome worker owner version : value.
Variable urllist : value → bool → value → list value.
Variable read_index : value → list (Z * value).
Variable find_modules : list value → list value.
Variable util_pack : value → value.
Variable pack_files : list value → gmap string value.
Variable wire : Type.
Variable dumps : gmap string value → wire.
Variable master : value.
Variable master_getattr : string → result value.
Variable request : wire → value.
Variable json_loads : value → value.
Variable partial : value → value → value.

Local Notation defaults := (JobDict.defaults jobhome worker owner version).
Local Notation getitem := (JobDict.getitem jobhome worker owner version).
Local Notation item := (JobDict.item jobhome worker owner version).
Local Notation init :=
  (JobDict.init jobhome worker owner version urllist read_index find_modules).
Local Notation pack :=
  (JobDict.pack jobhome worker owner version util_pack pack_files wire dumps).
Local Notation jobpack_of :=
  (JobDict.jobpack_of jobhome worker owner version util_pack).
Local Notation getattr := (Job.getattr master master_getattr partial).
Local Notation default_factory :=
  (Job.default_factory jobhome worker owner version master master_getattr
                       partial).
Local Notation JobDict_getitem :=
  (Job.JobDict_getitem jobhome worker owner version master master_getattr
                       partial).
Local Notation JobDict_init :=
  (Job.JobDict_init jobhome worker owner version urllist read_index
                    find_modules master master_getattr partial).
Local Notation JobDict_pack :=
  (Job.JobDict_pack jobhome worker owner version util_pack pack_files wire
                    dumps master master_getattr partial).
Local Notation inherited := (Job.inherited jobhome worker owner version).
Local Notation run_jobpack :=
  (Job.run_jobpack jobhome worker owner version urllist read_index
                   find_modules util_pack pack_files wire dumps master
                   master_getattr partial).
Local Notation run :=
  (Job.run jobhome worker owner version urllist read_index find_modules
           util_pack pack_files wire dumps master master_getattr request
           json_loads partial).
Local Notation sent :=
  (Job.sent jobhome worker owner version urllist read_index find_modules
            util_pack pack_files wire dumps master master_getattr partial).

(** No option carries the name of a proxy function or of an attribute
    that every job has. *)
Lemma option_not_special (key : string) :
  is_Some (defaults !! key) →
  (key ∉ Job.proxy_functions) ∧
  key ≠ "master" ∧ key ≠ "name" ∧ key ≠ "proxy_functions".
Proof.
  intros [d Hd].
  assert (∀ k, k ∈ ("master" :: "name" :: "proxy_functions"
                      :: Job.proxy_functions) → defaults !! k = None) as Hnone.
  { intros k Hk. unfold Job.proxy_functions in Hk.
    repeat (apply elem_of_cons in Hk as [-> | Hk]; [by vm_compute |]).
    by apply elem_of_nil in Hk. }
  split; [| split; [| split]].
  - intros Hin. rewrite Hnone in Hd; [done |]. by do 3 right.
  - intros ->. rewrite Hnone in Hd; [done |]. by left.
  - intros ->. rewrite Hnone in Hd; [done |]. right. by left.
  - intros ->. rewrite Hnone in Hd; [done |]. do 2 right. by left.
Qed.

Lemma lookup_inherited (job : Job.t) (key : string) :
  is_Some (defaults !! key) → inherited job !! key = Job.attrs job !! key.
Proof.
  intros Hkey. unfold Job.inherited.
  destruct (Job.attrs job !! key) as [a|] eqn:Ha.
  - by apply map_lookup_filter_Some.
  - apply map_lookup_filter_None. by left.
Qed.

Lemma lookup_inherited_other (job : Job.t) (key : string) :
  defaults !! key = None → inherited job !! key = None.
Proof.
  intros Hkey. unfold Job.inherited. apply map_lookup_filter_None. right.
  intros a _ [d Hd]. simpl in Hd. by rewrite Hkey in Hd.
Qed.

(** An option of a [Job.JobDict]: the stored entry, else the attribute of
    the job, else the default. *)
Lemma JobDict_getitem_item (job : Job.t) (self : gmap string value)
    (key : string) :
  is_Some (defaults !! key) →
  JobDict_getitem job self key = Ok (item (self ∪ inherited job) key).
Proof.
  intros Hkey. pose proof (option_not_special key Hkey) as (Hp & Hm & Hn & Hf).
  unfold Job.JobDict_getitem, JobDict.item. rewrite lookup_union.
  destruct (self !! key) as [v|] eqn:Hself.
  { by destruct (inherited job !! key). }
  rewrite lookup_inherited by done.
  unfold Job.default_factory, Job.getattr, Job.lookup_attr.
  apply String.eqb_neq in Hm, Hn, Hf. rewrite Hm, Hn, Hf.
  destruct (Job.attrs job !! key) as [a|]; [done |].
  unfold Job.getattr_missing. rewrite bool_decide_eq_false_2 by done.
  unfold JobDict.default_factory. destruct Hkey as [d ->]. done.
Qed.


Ltac options :=
  repeat first
    [ rewrite JobDict_getitem_item by (vm_compute; eauto)
    | rewrite getitem_item by (vm_compute; eauto)
    | rewrite bind_Ok
    | rewrite bind_Raise ].

Local Notation with_inherited job r := (r ≫= λ S, Ok (S ∪ inherited job)).

Lemma JobDict_input_is_partitioned_inherited (job : Job.t)
    (self : gmap string value) :
  Job.JobDict_input_is_partitioned jobhome worker owner version master
    master_getattr partial job self
  = JobDict.input_is_partitioned jobhome worker owner version
      (self ∪ inherited job).
Proof.
  unfold Job.JobDict_input_is_partitioned, JobDict.input_is_partitioned.
  by options.
Qed.

Lemma JobDict_set_required_modules_inherited (job : Job.t)
    (self : gmap string value) :
  with_inherited job
    (Job.JobDict_set_required_modules jobhome worker owner version
       find_modules master master_getattr partial job self)
  = JobDict.set_required_modules jobhome worker owner version find_modules
      (self ∪ inherited job).
Proof.
  unfold Job.JobDict_set_required_modules, JobDict.set_required_modules.
  options. destruct (is_none _); [| done].
  rewrite !(mapM_Ok _ (item (self ∪ inherited job))).
  - options. by rewrite insert_union_l.
  - intros key Hkey. by apply getitem_item, funcs_in_defaults.
  - intros key Hkey. by apply JobDict_getitem_item, funcs_in_defaults.
Qed.

Lemma JobDict_set_input_inherited (job : Job.t) (ddfs : value)
    (self : gmap string value) :
  with_inherited job
    (Job.JobDict_set_input jobhome worker owner version urllist master
       master_getattr partial job ddfs self)
  = JobDict.set_input jobhome worker owner version urllist ddfs
      (self ∪ inherited job).
Proof.
  unfold Job.JobDict_set_input, JobDict.set_input. options.
  destruct (py_iter _); options; [| done].
  destruct (mapM _ _); options; [| done]. by rewrite insert_union_l.
Qed.

Lemma JobDict_set_partitions_inherited (job : Job.t)
    (self : gmap string value) :
  with_inherited job
    (Job.JobDict_set_partitions jobhome worker owner version master
       master_getattr partial job self)
  = JobDict.set_partitions jobhome worker owner version (self ∪ inherited job).
Proof.
  unfold Job.JobDict_set_partitions, JobDict.set_partitions. options.
  by rewrite insert_union_l.
Qed.

Lemma JobDict_set_nr_reduces_inherited (job : Job.t)
    (self : gmap string value) :
  with_inherited job
    (Job.JobDict_set_nr_reduces jobhome worker owner version read_index master
       master_getattr partial job self)
  = JobDict.set_nr_reduces jobhome worker owner version read_index
      (self ∪ inherited job).
Proof.
  unfold Job.JobDict_set_nr_reduces, JobDict.set_nr_reduces.
  rewrite JobDict_input_is_partitioned_inherited. options.
  destruct (truthy (item _ "map")); options; [by rewrite insert_union_l |].
  destruct (JobDict.input_is_partitioned _ _ _ _ _); options; [| done].
  destruct (truthy _); options; [| by rewrite insert_union_l].
  destruct (py_iter _); options; [| done].
  destruct (JobDict.partition_ids _ _); options; [| done].
  destruct (py_max _); options; [| done]. by rewrite insert_union_l.
Qed.

Lemma JobDict_set_merge_partitions_inherited (job : Job.t)
    (self : gmap string value) :
  with_inherited job
    (Job.JobDict_set_merge_partitions jobhome worker owner version master
       master_getattr partial job self)
  = JobDict.set_merge_partitions jobhome worker owner version
      (self ∪ inherited job).
Proof.
  unfold Job.JobDict_set_merge_partitions, JobDict.set_merge_partitions.
  rewrite JobDict_input_is_partitioned_inherited. options.
  destruct (truthy (item _ "merge_partitions")); options; [| done].
  destruct (truthy (item _ "partitions")); options;
    [by rewrite insert_union_l |].
  destruct (JobDict.input_is_partitioned _ _ _ _ _); options; [| done].
  destruct (truthy _); options; [by rewrite insert_union_l | done].
Qed.

Lemma JobDict_set_scheduler_inherited (job : Job.t)
    (self : gmap string value) :
  with_inherited job
    (Job.JobDict_set_scheduler jobhome worker owner version master
       master_getattr partial job self)
  = JobDict.set_scheduler jobhome worker owner version (self ∪ inherited job).
Proof.
  unfold Job.JobDict_set_scheduler, JobDict.set_scheduler. options.
  destruct (JobDict.merged_scheduler _) as [scheduler|]; options; [| done].
  destruct (scheduler !! "max_cores") as [max_cores|]; [| done].
  destruct (py_lt_int max_cores 1); [done |]. options.
  by rewrite insert_union_l.
Qed.

Lemma JobDict_set_job_flow_inherited (job : Job.t)
    (self : gmap string value) :
  with_inherited job
    (Job.JobDict_set_job_flow jobhome worker owner version master
       master_getattr partial job self)
  = JobDict.set_job_flow jobhome worker owner version (self ∪ inherited job).
Proof.
  unfold Job.JobDict_set_job_flow, JobDict.set_job_flow. options.
  by rewrite !insert_union_l.
Qed.

Lemma JobDict_init_inherited (job : Job.t) (ddfs : value)
    (kwargs : gmap string value) :
  with_inherited job (JobDict_init job ddfs kwargs)
  = init ddfs (kwargs ∪ inherited job).
Proof.
  unfold Job.JobDict_init, JobDict.init.
  rewrite <- JobDict_set_required_modules_inherited.
  destruct (Job.JobDict_set_required_modules _ _ _ _ _ _ _ _ _ _) as [s1|];
    options; [| done].
  rewrite <- JobDict_set_input_inherited.
  destruct (Job.JobDict_set_input _ _ _ _ _ _ _ _ _ _ _) as [s2|];
    options; [| done].
  rewrite <- JobDict_set_partitions_inherited.
  destruct (Job.JobDict_set_partitions _ _ _ _ _ _ _ _ _) as [s3|];
    options; [| done].
  rewrite <- JobDict_set_nr_reduces_inherited.
  destruct (Job.JobDict_set_nr_reduces _ _ _ _ _ _ _ _ _ _) as [s4|];
    options; [| done].
  rewrite <- JobDict_set_merge_partitions_inherited.
  destruct (Job.JobDict_set_merge_partitions _ _ _ _ _ _ _ _ _) as [s5|];
    options; [| done].
  rewrite <- JobDict_set_scheduler_inherited.
  destruct (Job.JobDict_set_scheduler _ _ _ _ _ _ _ _ _) as [s6|];
    options; [| done].
  apply JobDict_set_job_flow_inherited.
Qed.


Lemma JobDict_set_required_files_inherited (job : Job.t)
    (self : gmap string value) :
  with_inherited job
    (Job.JobDict_set_required_files jobhome worker owner version pack_files
       master master_getattr partial job self)
  = JobDict.set_required_files jobhome worker owner version pack_files
      (self ∪ inherited job).
Proof.
  unfold Job.JobDict_set_required_files, JobDict.set_required_files. options.
  destruct (truthy _); [destruct (is_dict _) |]; options.
  - destruct (item _ "required_files"); try done; options.
    destruct (py_iter _); options; [| done]. by rewrite insert_union_l.
  - destruct (py_iter _); options; [| done]. rewrite !insert_union_l.
    destruct (item _ "required_files"); try done; options.
    destruct (py_iter _); options; [| done]. by rewrite !insert_union_l.
  - rewrite !insert_union_l.
    destruct (item _ "required_files"); try done; options.
    destruct (py_iter _); options; [| done]. by rewrite !insert_union_l.
Qed.

Lemma list_to_map_keys {A} (m : gmap string A) (h : string → value) :
  (list_to_map ((λ key, (key, h key)) <$> (map_to_list m).*1)
     : gmap string value)
  = map_imap (λ key _, Some (h key)) m.
Proof.
  apply map_eq. intros key. rewrite map_lookup_imap.
  destruct (m !! key) as [a|] eqn:Hkey; simpl.
  - apply elem_of_list_to_map_1.
    + rewrite <- list_fmap_compose.
      replace (fst ∘ (λ key0, (key0, h key0))) with (@id string) by done.
      rewrite list_fmap_id. apply NoDup_fst_map_to_list.
    + apply list_elem_of_fmap. exists key. split; [done |].
      apply list_elem_of_fmap. exists (key, a). split; [done |].
      by apply elem_of_map_to_list.
  - apply not_elem_of_list_to_map_1. rewrite <- list_fmap_compose.
    replace (fst ∘ (λ key0, (key0, h key0))) with (@id string) by done.
    rewrite list_fmap_id. intros ([k a] & -> & Hin)%list_elem_of_fmap.
    apply elem_of_map_to_list in Hin. simpl in Hkey. congruence.
Qed.

Lemma JobDict_jobpack_of_inherited (job : Job.t) (self : gmap string value) :
  Job.JobDict_jobpack_of jobhome worker owner version util_pack master
    master_getattr partial job self
  = Ok (jobpack_of (self ∪ inherited job)).
Proof.
  unfold Job.JobDict_jobpack_of, JobDict.jobpack_of.
  rewrite (mapM_Ok _ (λ key, (key, if bool_decide (key ∈ JobDict.master_keys)
                                   then item (self ∪ inherited job) key
                                   else util_pack
                                          (item (self ∪ inherited job) key)))).
  - options. apply (f_equal Ok).
    rewrite (list_to_map_keys defaults
               (λ key, if bool_decide (key ∈ JobDict.master_keys)
                       then item (self ∪ inherited job) key
                       else util_pack (item (self ∪ inherited job) key))).
    apply map_eq. intros key. rewrite !map_lookup_imap.
    destruct (defaults !! key) as [d|] eqn:Hd; [| done]. simpl.
    unfold JobDict.item. by rewrite Hd.
  - intros key ([k d] & -> & Hin)%list_elem_of_fmap.
    apply elem_of_map_to_list in Hin. simpl.
    rewrite JobDict_getitem_item by eauto. done.
Qed.

Lemma JobDict_pack_inherited (job : Job.t) (self : gmap string value) :
  JobDict_pack job self ≫= (λ '(jobpack, self'),
                              Ok (jobpack, self' ∪ inherited job))
  = pack (self ∪ inherited job).
Proof.
  unfold Job.JobDict_pack, JobDict.pack.
  rewrite <- JobDict_set_required_files_inherited.
  destruct (Job.JobDict_set_required_files _ _ _ _ _ _ _ _ _ _) as [self'|];
    options; [| done].
  by rewrite JobDict_jobpack_of_inherited.
Qed.


(** The name of a proxy function is looked up among the attributes that
    the job carries. *)
Lemma lookup_attr_proxy (job : Job.t) (attr : string) :
  attr ∈ Job.proxy_functions →
  Job.lookup_attr master job attr = Job.attrs job !! attr.
Proof.
  intros Hp. unfold Job.proxy_functions in Hp.
  repeat (apply elem_of_cons in Hp as [-> | Hp]; [reflexivity |]).
  by apply elem_of_nil in Hp.
Qed.

Lemma inherited_empty (job : Job.t) :
  (∀ key, is_Some (defaults !! key) → Job.attrs job !! key = None) →
  inherited job = ∅.
Proof.
  intros Hplain. apply map_eq. intros key. rewrite lookup_empty.
  destruct (defaults !! key) as [d|] eqn:Hd.
  - rewrite lookup_inherited by eauto. apply Hplain. eauto.
  - by apply lookup_inherited_other.
Qed.


(** X16. An entry of a [Job.JobDict]: what is stored comes first; an option
    that is not stored is the attribute of that name that the job carries,
    and the default otherwise, so that every option has a value; the name
    of a proxy function that is neither stored nor an attribute of the job
    gives the method of the master bound to the name of the job; a key that
    nothing answers for raises [KeyError]; the [AttributeError] of the job
    never comes out of the dictionary. *)
Theorem JobDict_getitem_order (job : Job.t) (self : gmap string value)
    (key : string) :
  (∀ v, self !! key = Some v → JobDict_getitem job self key = Ok v) ∧
  (is_Some (defaults !! key) →
   JobDict_getitem job self key = Ok (item (self ∪ inherited job) key) ∧
   (self !! key = None → ∀ a, Job.attrs job !! key = Some a →
    JobDict_getitem job self key = Ok a) ∧
   (self !! key = None → Job.attrs job !! key = None →
    JobDict_getitem job self key = JobDict.getitem jobhome worker owner
                                     version self key)) ∧
  (self !! key = None → Job.attrs job !! key = None →
   key ∈ Job.proxy_functions → ∀ f, master_getattr key = Ok f →
   JobDict_getitem job self key = Ok (partial f (Job.name job))) ∧
  (self !! key = None → getattr job key = Raise AttributeError →
   defaults !! key = None →
   JobDict_getitem job self key = Raise (KeyError key)) ∧
  JobDict_getitem job self key ≠ Raise AttributeError.
Proof.
  split; [| split; [| split; [| split]]].
  - intros v Hv. unfold Job.JobDict_getitem. by rewrite Hv.
  - intros Hkey. split; [by apply JobDict_getitem_item |]. split.
    + intros Hself a Ha. rewrite JobDict_getitem_item by done.
      apply (f_equal Ok), item_lookup.
      by rewrite lookup_union, Hself, lookup_inherited, Ha.
    + intros Hself Ha. rewrite JobDict_getitem_item, getitem_item by done.
      apply (f_equal Ok). unfold JobDict.item.
      by rewrite lookup_union, Hself, lookup_inherited, Ha.
  - intros Hself Ha Hp f Hf.
    unfold Job.JobDict_getitem, Job.default_factory, Job.getattr.
    rewrite Hself, lookup_attr_proxy, Ha by done.
    unfold Job.getattr_missing. by rewrite bool_decide_eq_true_2, Hf.
  - intros Hself Hattr Hd.
    unfold Job.JobDict_getitem, Job.default_factory. rewrite Hself, Hattr.
    unfold JobDict.default_factory. by rewrite Hd.
  - unfold Job.JobDict_getitem, Job.default_factory.
    destruct (self !! key); [done |].
    destruct (getattr job key) as [v|[]]; try done.
    unfold JobDict.default_factory. by destruct (defaults !! key).
Qed.

(** X17. Constructing the [Job.JobDict] of a job from keyword arguments
    is constructing a [JobDict] from the keyword arguments together with
    the attributes of the job that carry the name of an option (the keyword
    argument wins): the two raise the same exception, or the second
    returns what the first returns together with those attributes. *)
Theorem JobDict_init_of_job (job : Job.t) (ddfs : value)
    (kwargs : gmap string value) :
  match JobDict_init job ddfs kwargs with
  | Ok self => init ddfs (kwargs ∪ inherited job) = Ok (self ∪ inherited job)
  | Raise e => init ddfs (kwargs ∪ inherited job) = Raise e
  end.
Proof.
  rewrite <- JobDict_init_inherited. by destruct (JobDict_init job ddfs kwargs).
Qed.

(** X18. Packing the [Job.JobDict] of a job is packing the [JobDict] that
    also holds the attributes of the job that carry the name of an option:
    the same exception, or the same bytes and the same changes to the
    specification. *)
Theorem JobDict_pack_of_job (job : Job.t) (self : gmap string value) :
  match JobDict_pack job self with
  | Ok (jobpack, self') =>
      pack (self ∪ inherited job) = Ok (jobpack, self' ∪ inherited job)
  | Raise e => pack (self ∪ inherited job) = Raise e
  end.
Proof.
  rewrite <- JobDict_pack_inherited.
  by destruct (JobDict_pack job self) as [[jobpack self']|].
Qed.

(** X19. For a job that has no attribute with the name of an option (as
    a job of the class [Job] itself), the [Job.JobDict] behaves as the
    [JobDict]: construction and [pack] return the same result. *)
Theorem JobDict_of_plain_job (job : Job.t) (ddfs : value)
    (kwargs self : gmap string value) :
  (∀ key, is_Some (defaults !! key) → Job.attrs job !! key = None) →
  JobDict_init job ddfs kwargs = init ddfs kwargs ∧
  JobDict_pack job self = pack self.
Proof.
  intros Hplain%inherited_empty. split.
  - pose proof (JobDict_init_inherited job ddfs kwargs) as Hinit.
    rewrite Hplain, (right_id_L ∅ (∪)) in Hinit. rewrite <- Hinit.
    destruct (JobDict_init job ddfs kwargs) as [self'|]; [| done].
    by rewrite bind_Ok, (right_id_L ∅ (∪)).
  - pose proof (JobDict_pack_inherited job self) as Hpack.
    rewrite Hplain, (right_id_L ∅ (∪)) in Hpack. rewrite <- Hpack.
    destruct (JobDict_pack job self) as [[jobpack self']|]; [| done].
    by rewrite bind_Ok, (right_id_L ∅ (∪)).
Qed.

(** X20. What [run] sends, for a master with an address [ddfs]: called
    with one of the keyword arguments [prefix], [ddfs], [job] or [self],
    [run] raises [TypeError] and sends nothing; otherwise the job pack is
    the one of the [JobDict] built, with that address, from the keyword
    arguments, the name of the job as [prefix], and the attributes of the
    job that carry the name of an option. *)
Theorem run_jobpack_of_job (job : Job.t) (ddfs : value)
    (kwargs : gmap string value) :
  master_getattr "master" = Ok ddfs →
  (Exists (λ key, is_Some (kwargs !! key)) Job.reserved →
   run job kwargs = Raise TypeError ∧ sent job kwargs = None) ∧
  (Forall (λ key, kwargs !! key = None) Job.reserved →
   run_jobpack job kwargs
   = (S ← init ddfs (<["prefix" := Job.name job]> kwargs ∪ inherited job);
      '(jobpack, _) ← pack S;
      Ok jobpack)).
Proof.
  intros Hmaster. split.
  - intros Hclash. unfold Job.run, Job.sent, Job.run_jobpack.
    rewrite Hmaster, bind_Ok, bool_decide_eq_true_2 by done. done.
  - intros Hfree. unfold Job.run_jobpack.
    rewrite Hmaster, bind_Ok, bool_decide_eq_false_2.
    + rewrite <- JobDict_init_inherited.
      destruct (JobDict_init job ddfs _) as [S|]; [| done]. rewrite !bind_Ok.
      rewrite <- JobDict_pack_inherited.
      by destruct (JobDict_pack job S) as [[jobpack self']|].
    + intros Hclash. apply Exists_exists in Hclash as (key & Hin & [v Hv]).
      rewrite Forall_forall in Hfree. by rewrite (Hfree key Hin) in Hv.
Qed.


End Jobs.


(** ** The properties on concrete job descriptions *)

Ltac compute_ok := vm_compute; reflexivity.

Lemma built_Ok (kwargs : gmap string value) :
  is_ok (Sample.init VNone kwargs) = true →
  Sample.init VNone kwargs = Ok (Sample.built kwargs).
Proof. unfold Sample.built. by destruct (Sample.init VNone kwargs). Qed.

Lemma packed_Ok (S : gmap string value) :
  is_ok (Sample.pack S) = true →
  Sample.pack S = Ok ((Sample.packed S).1, (Sample.packed S).2).
Proof.
  unfold Sample.packed. by destruct (Sample.pack S) as [[jobpack S']|].
Qed.

Ltac built_ok := apply built_Ok; compute_ok.

(** A run of [nr_reduces_at_least_one]: a map with four partitions. *)
Lemma nr_reduces_at_least_one_witness :
  Sample.init VNone (Sample.kw_map (VInt 4))
  = Ok (Sample.built (Sample.kw_map (VInt 4))) ∧
  ∃ n, Sample.built (Sample.kw_map (VInt 4)) !! "nr_reduces" = Some (VInt n) ∧
       (1 ≤ n)%Z.
Proof.
  split; [built_ok |].
  eapply (nr_reduces_at_least_one Sample.jobhome Sample.worker Sample.owner
            Sample.version Sample.urllist Sample.read_index
            Sample.find_modules VNone (Sample.kw_map (VInt 4))).
  - built_ok.
  - right. exists 4%Z. split; [compute_ok | lia].
  - intros dir id url Hin. unfold Sample.read_index in Hin.
    repeat (apply elem_of_cons in Hin as [[= -> _] | Hin]; [lia |]).
    by apply elem_of_nil in Hin.
Defined.

(** C1 fails as stated: a map with [partitions = -3] is accepted and gives
    [nr_reduces = -3]. *)
Lemma nr_reduces_negative_partitions :
  Sample.init VNone (Sample.kw_map (VInt (-3)))
  = Ok (Sample.built (Sample.kw_map (VInt (-3)))) ∧
  Sample.built (Sample.kw_map (VInt (-3))) !! "nr_reduces" = Some (VInt (-3)) ∧
  ¬ (1 ≤ -3)%Z.
Proof. split; [built_ok |]. split; [compute_ok | lia]. Qed.

(** The index reader matters in the same way: a reduce over partitioned
    inputs whose index holds the partition index -5 gets
    [nr_reduces = -4]. *)
Lemma nr_reduces_negative_index :
  JobDict.init Sample.jobhome Sample.worker Sample.owner Sample.version
    Sample.urllist Sample.read_index_neg Sample.find_modules VNone
    Sample.kw_dirs
  ≫= (λ S, Ok (S !! "nr_reduces"))
  = Ok (Some (VInt (-4))).
Proof. compute_ok. Qed.

(** A run of [nr_reduces_with_map]: four partitions give four reduces. *)
Lemma nr_reduces_with_map_witness :
  Sample.init VNone (Sample.kw_map (VInt 4))
  = Ok (Sample.built (Sample.kw_map (VInt 4))) ∧
  truthy (Sample.item (Sample.kw_map (VInt 4)) "map") = true ∧
  truthy (Sample.item (Sample.kw_map (VInt 4)) "merge_partitions") = false ∧
  Sample.built (Sample.kw_map (VInt 4)) !! "nr_reduces" = Some (VInt 4).
Proof.
  split; [built_ok |]. split; [compute_ok |]. split; [compute_ok |].
  eapply (proj1 (nr_reduces_with_map Sample.jobhome Sample.worker Sample.owner
                   Sample.version Sample.urllist Sample.read_index
                   Sample.find_modules VNone (Sample.kw_map (VInt 4)) _
                   ltac:(built_ok) ltac:(compute_ok) ltac:(compute_ok)) 4%Z);
    [compute_ok | lia].
Defined.

(** C3 fails as stated: with a map function, [partitions = 3] and
    [merge_partitions] requested, construction succeeds with
    [nr_reduces = 1], not 3. *)
Lemma nr_reduces_with_map_merged :
  Sample.init VNone (Sample.kw_map_merge (VInt 3))
  = Ok (Sample.built (Sample.kw_map_merge (VInt 3))) ∧
  truthy (Sample.item (Sample.kw_map_merge (VInt 3)) "map") = true ∧
  Sample.item (Sample.kw_map_merge (VInt 3)) "partitions" = VInt 3 ∧
  Sample.built (Sample.kw_map_merge (VInt 3)) !! "nr_reduces"
  = Some (VInt 1) ∧
  Sample.built (Sample.kw_map_merge (VInt 3)) !! "nr_reduces"
  ≠ Some (VInt 3).
Proof.
  split; [built_ok |]. split; [compute_ok |]. split; [compute_ok |].
  split; [compute_ok |]. by vm_compute.
Qed.

Lemma dirs_partitioned : JobDict.partitioned Sample.dirs.
Proof.
  split; [done |].
  repeat constructor; eexists; split; reflexivity.
Qed.

Lemma dirs_is_max :
  JobDict.is_max (JobDict.index_ids Sample.read_index Sample.dirs) 2.
Proof.
  split; [vm_compute; right; left |].
  intros i Hi. vm_compute in Hi.
  repeat (apply elem_of_cons in Hi as [-> | Hi]; [lia |]).
  by apply elem_of_nil in Hi.
Qed.

(** A run of [nr_reduces_reduce_only]: the largest partition index of the
    two partitioned inputs is 2, which gives three reduces. *)
Lemma nr_reduces_reduce_only_witness :
  Sample.init VNone Sample.kw_dirs = Ok (Sample.built Sample.kw_dirs) ∧
  truthy (Sample.item Sample.kw_dirs "map") = false ∧
  truthy (Sample.item Sample.kw_dirs "merge_partitions") = false ∧
  Sample.built Sample.kw_dirs !! "input"
  = Some (JobDict.input_value Sample.dirs) ∧
  JobDict.partitioned Sample.dirs ∧
  JobDict.is_max (JobDict.index_ids Sample.read_index Sample.dirs) 2 ∧
  Sample.built Sample.kw_dirs !! "nr_reduces" = Some (VInt (2 + 1)).
Proof.
  split; [built_ok |]. split; [compute_ok |]. split; [compute_ok |].
  split; [compute_ok |].
  split; [exact dirs_partitioned |]. split; [exact dirs_is_max |].
  eapply (nr_reduces_reduce_only Sample.jobhome Sample.worker Sample.owner
            Sample.version Sample.urllist Sample.read_index
            Sample.find_modules VNone Sample.kw_dirs _ Sample.dirs 2).
  - built_ok.
  - compute_ok.
  - compute_ok.
  - compute_ok.
  - exact dirs_partitioned.
  - exact dirs_is_max.
Defined.

(** C4 fails as stated: a reduce over the same partitioned inputs with
    [merge_partitions] requested has [nr_reduces = 1], not 2 + 1. *)
Lemma nr_reduces_reduce_only_merged :
  Sample.init VNone Sample.kw_dirs_merge
  = Ok (Sample.built Sample.kw_dirs_merge) ∧
  truthy (Sample.item Sample.kw_dirs_merge "map") = false ∧
  Sample.built Sample.kw_dirs_merge !! "input"
  = Some (JobDict.input_value Sample.dirs) ∧
  JobDict.partitioned Sample.dirs ∧
  JobDict.is_max (JobDict.index_ids Sample.read_index Sample.dirs) 2 ∧
  Sample.built Sample.kw_dirs_merge !! "nr_reduces" = Some (VInt 1) ∧
  Sample.built Sample.kw_dirs_merge !! "nr_reduces" ≠ Some (VInt (2 + 1)).
Proof.
  split; [built_ok |]. split; [compute_ok |]. split; [compute_ok |].
  split; [exact dirs_partitioned |]. split; [exact dirs_is_max |].
  split; [compute_ok |]. by vm_compute.
Qed.

Lemma is_ok_Ok {A} (r : result A) : is_ok r = true → ∃ a, r = Ok a.
Proof. destruct r; [by eauto | done]. Qed.








(** A run of [input_is_partitioned_iff], on the reduce over two partitioned
    inputs. *)
Lemma input_is_partitioned_iff_witness :
  Sample.init VNone Sample.kw_dirs = Ok (Sample.built Sample.kw_dirs) ∧
  Sample.built Sample.kw_dirs !! "input"
  = Some (JobDict.input_value Sample.dirs) ∧
  Sample.input_is_partitioned (Sample.built Sample.kw_dirs) = Ok (VBool true) ∧
  ∃ ess,
    Sample.built Sample.kw_dirs !! "input" = Some (JobDict.input_value ess) ∧
    (Sample.input_is_partitioned (Sample.built Sample.kw_dirs)
     = Ok (VBool true) ↔ ess ≠ [] ∧ JobDict.all_dir_scheme ess) ∧
    (∀ ip, Sample.input_is_partitioned (Sample.built Sample.kw_dirs) = Ok ip →
           truthy ip = true ↔ ess ≠ [] ∧ JobDict.all_dir_scheme ess) ∧
    (ess = [] →
     Sample.input_is_partitioned (Sample.built Sample.kw_dirs) = Ok VNone) ∧
    (ess ≠ [] → JobDict.string_urls ess → ¬ JobDict.all_dir_scheme ess →
     Sample.input_is_partitioned (Sample.built Sample.kw_dirs)
     = Ok (VBool false)).
Proof.
  split; [built_ok |]. split; [compute_ok |]. split; [compute_ok |].
  apply (input_is_partitioned_iff Sample.jobhome Sample.worker Sample.owner
           Sample.version Sample.urllist Sample.read_index
           Sample.find_modules VNone Sample.kw_dirs).
  built_ok.
Defined.



(** So does a specification built from the defaults alone, when module
    discovery finds a module that comes with its source: [required_files]
    is empty before [pack] and holds the file of the module after it. *)
Lemma pack_adds_module_files :
  Sample.init_kv VNone ∅
  ≫= (λ S, Sample.pack S
           ≫= λ r, Ok (Sample.item S "required_files",
                       Sample.item r.2 "required_files"))
  = Ok (VDict ∅, VDict {["lib/mymod.py" := VStr ""]}).
Proof. compute_ok. Qed.



(** A run of [params_capture_restore]: the bag with [a = 1], [b = "x"] and
    a private [_hidden = 99] is captured without the private attribute and
    restored with [a] and [b]. *)
Lemma params_capture_restore_witness :
  (∀ v, Sample.util_unpack (Sample.util_pack v) = v) ∧
  (∀ k, k ∈ dom (Params.getstate Sample.util_pack Sample.bag) ↔
        k ∈ dom Sample.bag ∧ Params.private k = false) ∧
  Params.getstate Sample.util_pack Sample.bag !! "a"
  = Some (Sample.util_pack (VInt 1)) ∧
  Params.getstate Sample.util_pack Sample.bag !! "_hidden" = None ∧
  Params.setstate Sample.util_unpack ∅
    (Params.getstate Sample.util_pack Sample.bag) !! "a" = Some (VInt 1) ∧
  Params.setstate Sample.util_unpack ∅
    (Params.getstate Sample.util_pack Sample.bag) !! "b" = Some (VStr "x") ∧
  Params.setstate Sample.util_unpack ∅
    (Params.getstate Sample.util_pack Sample.bag) !! "_hidden" = None.
Proof.
  assert (∀ v, Sample.util_unpack (Sample.util_pack v) = v) as Hcodec
    by reflexivity.
  destruct (params_capture_restore Sample.util_pack Sample.util_unpack
              Sample.bag Hcodec) as (Hdom & Hget & _ & Hset & Hprivate).
  split; [exact Hcodec |]. split; [exact Hdom |].
  split; [apply Hget; compute_ok |]. split; [compute_ok |].
  split; [apply Hset; compute_ok |]. split; [apply Hset; compute_ok |].
  apply Hprivate. compute_ok.
Defined.

Lemma kw_plain_transparent : dom Sample.kw_plain ⊆ JobDict.master_keys.
Proof. apply (bool_decide_unpack _). by vm_compute. Qed.

(** A run of [pack_unpack_roundtrip], on a specification built from an
    input and a prefix. *)
Lemma pack_unpack_roundtrip_witness :
  (∀ v, Sample.util_unpack (Sample.util_pack v) = v) ∧
  (∀ r, Sample.loads (Sample.dumps r) = r) ∧
  (∀ l listdirs d, Sample.urllist (VList l) listdirs d = [VList l]) ∧
  dom Sample.kw_plain ⊆ JobDict.master_keys ∧
  Sample.init VNone Sample.kw_plain = Ok (Sample.built Sample.kw_plain) ∧
  ∃ jobpack S1 S2,
    Sample.pack (Sample.built Sample.kw_plain) = Ok (jobpack, S1) ∧
    Sample.unpack jobpack = Ok S2 ∧
    (∀ key, is_Some (JobDict.defaults Sample.jobhome Sample.worker
                       Sample.owner Sample.version !! key) →
            S2 !! key = Some (Sample.item S1 key) ∧
            Sample.item S2 key = Sample.item S1 key) ∧
    (∀ key, key ≠ "required_files" →
            Sample.item S1 key
            = Sample.item (Sample.built Sample.kw_plain) key) ∧
    Sample.item (Sample.built Sample.kw_plain) "required_files" = VDict ∅ ∧
    (∃ mods,
       Sample.item (Sample.built Sample.kw_plain) "required_modules"
       = VList mods ∧
       Sample.item S1 "required_files"
       = VDict (JobDict.module_files Sample.pack_files mods) ∧
       Sample.item S2 "required_files"
       = VDict (JobDict.module_files Sample.pack_files mods) ∧
       (JobDict.module_files Sample.pack_files mods = ∅ →
        ∀ key, is_Some (JobDict.defaults Sample.jobhome Sample.worker
                          Sample.owner Sample.version !! key) →
               Sample.item S2 key
               = Sample.item (Sample.built Sample.kw_plain) key)) ∧
    (∀ key, is_Some (JobDict.defaults Sample.jobhome Sample.worker
                       Sample.owner Sample.version !! key) →
            key ≠ "required_files" →
            Sample.item S2 key
            = Sample.item (Sample.built Sample.kw_plain) key).
Proof.
  split; [reflexivity |]. split; [reflexivity |]. split; [reflexivity |].
  split; [exact kw_plain_transparent |]. split; [built_ok |].
  apply (proj1 (pack_unpack_roundtrip Sample.jobhome Sample.worker
                  Sample.owner Sample.version Sample.urllist
                  Sample.read_index Sample.find_modules Sample.util_pack
                  Sample.util_unpack Sample.pack_files (gmap string value)
                  Sample.dumps Sample.loads VNone Sample.kw_plain
                  (Sample.built Sample.kw_plain)
                  ltac:(reflexivity) ltac:(reflexivity) ltac:(reflexivity)
                  kw_plain_transparent ltac:(built_ok))).
Defined.

(** C2 fails as stated: with a module discovery that finds a module which
    comes with its source, the specification built from the same
    transparent overrides has no required files, and the specification
    that [unpack] returns for its bytes holds the file of the module. *)
Lemma roundtrip_adds_module_files :
  dom Sample.kw_plain ⊆ JobDict.master_keys ∧
  Sample.init_kv VNone Sample.kw_plain
  ≫= (λ S, Sample.pack S
           ≫= λ r, Sample.unpack_kv r.1
                   ≫= λ S2, Ok (Sample.item S "required_files",
                                Sample.item S2 "required_files"))
  = Ok (VDict ∅, VDict {["lib/mymod.py" := VStr ""]}) ∧
  VDict ∅ ≠ VDict {["lib/mymod.py" := VStr ""]}.
Proof.
  split; [exact kw_plain_transparent |]. split; [compute_ok |].
  by vm_compute.
Qed.

(** ** Further properties on concrete job descriptions *)

(** The scheduler option is what [dict.update] takes: a sequence of pairs
    overrides the default policy as a dictionary does and goes through the
    same check, an empty string changes nothing, a string of characters
    has items of the wrong length and [None] is not iterable. *)
Lemma scheduler_options :
  JobDict.merged_scheduler (VList [VTuple [VStr "max_cores"; VInt 4]])
  = JobDict.merged_scheduler (VDict {["max_cores" := VInt 4]}) ∧
  is_ok (Sample.init VNone (Sample.kw_scheduler_pairs 4)) = true ∧
  is_ok (Sample.init VNone (Sample.kw_scheduler_pairs 0)) = false ∧
  JobDict.merged_scheduler (VStr "") = Ok JobDict.default_scheduler ∧
  Sample.init VNone (Sample.kw [("scheduler", VStr "ab")]) = Raise ValueError ∧
  Sample.init VNone (Sample.kw [("scheduler", VNone)]) = Raise TypeError ∧
  Sample.init VNone (Sample.kw [("scheduler", VList [VTuple [VList []; VInt 1]])])
  = Raise TypeError.
Proof.
  split; [compute_ok |]. split; [compute_ok |]. split; [compute_ok |].
  split; [compute_ok |]. split; [compute_ok |]. split; compute_ok.
Qed.

(** The keys of a record that the constructor takes as parameters: [self]
    is refused, [ddfs] is the address and no option. *)
Lemma unpack_parameter_keys :
  Sample.unpack (Sample.dumps {["self" := VInt 1]}) = Raise TypeError ∧
  Sample.unpack (Sample.dumps {["ddfs" := VStr "disco://host"]})
  ≫= (λ S, Ok (S !! "ddfs"))
  = Ok None.
Proof. split; compute_ok. Qed.


(** A run of [derived_fields_given]: a number of reduces given from outside
    is not looked at, neither by the constructor nor by [unpack]. *)
Lemma derived_fields_given_witness :
  Sample.init VNone (<["nr_reduces" := VInt 9]> (Sample.kw_map (VInt 4)))
  = Sample.init VNone (Sample.kw_map (VInt 4)) ∧
  Sample.unpack (Sample.dumps (<["nr_reduces" := VInt 9]> Sample.kw_plain))
  = Sample.unpack (Sample.dumps Sample.kw_plain).
Proof.
  destruct (derived_fields_given Sample.jobhome Sample.worker Sample.owner
              Sample.version Sample.urllist Sample.read_index
              Sample.find_modules Sample.util_unpack (gmap string value)
              Sample.dumps Sample.loads VNone (Sample.kw_map (VInt 4))
              Sample.kw_plain "nr_reduces" (VInt 9)) as [Hinit Hunpack].
  - by left.
  - split; [exact Hinit | by apply Hunpack].
Defined.

(** A run of [init_keeps_options]: a map with four partitions. *)
Lemma init_keeps_options_witness :
  Sample.init VNone (Sample.kw_map (VInt 4))
  = Ok (Sample.built (Sample.kw_map (VInt 4))) ∧
  Sample.built (Sample.kw_map (VInt 4)) !! "map?"
  = Some (VBool (truthy (Sample.item (Sample.built (Sample.kw_map (VInt 4)))
                                     "map"))) ∧
  Sample.item (Sample.built (Sample.kw_map (VInt 4))) "map"
  = Sample.item (Sample.kw_map (VInt 4)) "map".
Proof.
  split; [built_ok |].
  destruct (init_keeps_options Sample.jobhome Sample.worker Sample.owner
              Sample.version Sample.urllist Sample.read_index
              Sample.find_modules VNone (Sample.kw_map (VInt 4))
              (Sample.built (Sample.kw_map (VInt 4))))
    as (_ & Hflag & _ & Hmap & _); [built_ok |].
  split; [exact Hflag | exact Hmap].
Defined.

(** A run of [init_partitions]: [partitions] given as [None]. *)
Lemma init_partitions_witness :
  Sample.init VNone (Sample.kw_map VNone)
  = Ok (Sample.built (Sample.kw_map VNone)) ∧
  truthy (Sample.item (Sample.kw_map VNone) "partitions") = false ∧
  Sample.built (Sample.kw_map VNone) !! "partitions" = Some (VInt 0).
Proof.
  split; [built_ok |]. split; [compute_ok |].
  apply (init_partitions Sample.jobhome Sample.worker Sample.owner
           Sample.version Sample.urllist Sample.read_index
           Sample.find_modules VNone (Sample.kw_map VNone)
           (Sample.built (Sample.kw_map VNone))); [built_ok | compute_ok].
Defined.

(** A run of [init_required_modules]: no modules given. *)
Lemma init_required_modules_witness :
  Sample.init VNone (Sample.kw_map (VInt 4))
  = Ok (Sample.built (Sample.kw_map (VInt 4))) ∧
  is_none (Sample.item (Sample.built (Sample.kw_map (VInt 4)))
                       "required_modules") = false.
Proof.
  split; [built_ok |].
  apply (init_required_modules Sample.jobhome Sample.worker Sample.owner
           Sample.version Sample.urllist Sample.read_index
           Sample.find_modules VNone (Sample.kw_map (VInt 4))
           (Sample.built (Sample.kw_map (VInt 4)))). built_ok.
Defined.

(** A run of [init_scheduler_policy]: the policy given as a sequence of
    pairs. *)
Lemma init_scheduler_policy_witness :
  Sample.init VNone (Sample.kw_scheduler_pairs 4)
  = Ok (Sample.built (Sample.kw_scheduler_pairs 4)) ∧
  ∃ scheduler,
    JobDict.merged_scheduler
      (Sample.item (Sample.kw_scheduler_pairs 4) "scheduler")
    = Ok scheduler ∧
    Sample.built (Sample.kw_scheduler_pairs 4) !! "scheduler"
    = Some (VDict scheduler) ∧
    (∀ key, key ∈ ["force_local"; "force_remote"; "max_cores"] →
            is_Some (scheduler !! key)) ∧
    (∀ m, scheduler !! "max_cores" = Some (VInt m) → (1 ≤ m)%Z).
Proof.
  split; [built_ok |].
  destruct (init_scheduler_policy Sample.jobhome Sample.worker Sample.owner
              Sample.version Sample.urllist Sample.read_index
              Sample.find_modules VNone (Sample.kw_scheduler_pairs 4)
              (Sample.built (Sample.kw_scheduler_pairs 4)))
    as (scheduler & Hmerged & Hstored & Hkeys & _ & Hcores);
    [built_ok |].
  exists scheduler.
  split; [exact Hmerged |]. split; [exact Hstored |].
  split; [exact Hkeys | exact Hcores].
Defined.

(** A run of [init_idempotent]: the specification of a map with merged
    partitions, constructed again with another address. *)
Lemma init_idempotent_witness :
  Sample.init VNone (Sample.kw_map_merge (VInt 3))
  = Ok (Sample.built (Sample.kw_map_merge (VInt 3))) ∧
  Sample.init (VStr "ddfs") (Sample.built (Sample.kw_map_merge (VInt 3)))
  = Ok (Sample.built (Sample.kw_map_merge (VInt 3))).
Proof.
  split; [built_ok |].
  apply (init_idempotent Sample.jobhome Sample.worker Sample.owner
           Sample.version Sample.urllist Sample.read_index
           Sample.find_modules VNone (VStr "ddfs")
           (Sample.kw_map_merge (VInt 3))); [done | built_ok].
Defined.

(** A run of [init_reduce_only_partitioned]: a reduce over the partitioned
    results of two jobs, whose largest partition index is 2. *)
Lemma init_reduce_only_partitioned_witness :
  truthy (Sample.item Sample.kw_dirs "map") = false ∧
  py_iter (Sample.item Sample.kw_dirs "input")
  = Ok [VStr "dir://host/job1"; VStr "dir://host/job2"] ∧
  Sample.normalized VNone Sample.kw_dirs
    [VStr "dir://host/job1"; VStr "dir://host/job2"] = Sample.dirs ∧
  ∃ self, Sample.derive VNone Sample.kw_dirs = Ok self ∧
          self !! "nr_reduces" = Some (VInt (1 + 2)).
Proof.
  split; [compute_ok |]. split; [compute_ok |]. split; [compute_ok |].
  apply (init_reduce_only_partitioned Sample.jobhome Sample.worker
           Sample.owner Sample.version Sample.urllist Sample.read_index
           Sample.find_modules VNone Sample.kw_dirs
           [VStr "dir://host/job1"; VStr "dir://host/job2"]).
  - compute_ok.
  - compute_ok.
  - exact dirs_partitioned.
  - by repeat constructor.
  - exact dirs_is_max.
Defined.

(** A run of [init_with_map_succeeds]: a map with four partitions over the
    default input and with the default scheduler policy. *)
Lemma init_with_map_succeeds_witness :
  truthy (Sample.item (Sample.kw_map (VInt 4)) "map") = true ∧
  py_iter (Sample.item (Sample.kw_map (VInt 4)) "input") = Ok [] ∧
  ∃ S, Sample.init VNone (Sample.kw_map (VInt 4)) = Ok S ∧
       S !! "nr_reduces" = Some (VInt 4).
Proof.
  split; [compute_ok |]. split; [compute_ok |].
  apply (init_with_map_succeeds Sample.jobhome Sample.worker Sample.owner
           Sample.version Sample.urllist Sample.read_index
           Sample.find_modules VNone (Sample.kw_map (VInt 4)) []).
  - compute_ok.
  - compute_ok.
  - exists (JobDict.default_scheduler ∪ JobDict.default_scheduler),
      (VInt (2 ^ 31)).
    split; [compute_ok |]. split; compute_ok.
  - left. compute_ok.
Defined.

(** A run of [pack_record]: the specification of a map with four
    partitions. *)
Lemma pack_record_witness :
  Sample.pack (Sample.built (Sample.kw_map (VInt 4)))
  = Ok ((Sample.packed (Sample.built (Sample.kw_map (VInt 4)))).1,
        (Sample.packed (Sample.built (Sample.kw_map (VInt 4)))).2) ∧
  ∃ record,
    (Sample.packed (Sample.built (Sample.kw_map (VInt 4)))).1
    = Sample.dumps record ∧
    dom record
    = dom (JobDict.defaults Sample.jobhome Sample.worker Sample.owner
                            Sample.version) ∧
    (∀ key, key ∈ JobDict.master_keys →
            record !! key
            = Some (Sample.item
                      (Sample.packed (Sample.built (Sample.kw_map (VInt 4)))).2
                      key)).
Proof.
  split; [apply packed_Ok; compute_ok |].
  destruct (pack_record Sample.jobhome Sample.worker Sample.owner
              Sample.version Sample.util_pack Sample.pack_files
              (gmap string value) Sample.dumps
              (Sample.built (Sample.kw_map (VInt 4)))
              (Sample.packed (Sample.built (Sample.kw_map (VInt 4)))).2
              (Sample.packed (Sample.built (Sample.kw_map (VInt 4)))).1)
    as (record & Hrecord & Hdom & Hmaster & _); [apply packed_Ok; compute_ok |].
  exists record. split; [exact Hrecord |]. split; [exact Hdom | exact Hmaster].
Defined.


(** A run of [params_copy_state]: a bag with a private attribute. *)
Lemma params_copy_state_witness :
  Params.getstate Sample.util_pack
    (Params.setstate Sample.util_unpack ∅
       (Params.getstate Sample.util_pack Sample.bag))
  = Params.getstate Sample.util_pack Sample.bag.
Proof.
  by apply (params_copy_state Sample.util_pack Sample.util_unpack Sample.bag).
Defined.

(** A run of [JobDict_of_plain_job]: a job of the class [Job] itself. *)
Lemma JobDict_of_plain_job_witness :
  SampleJob.JobDict_init SampleJob.plain VNone (Sample.kw_map (VInt 4))
  = Sample.init VNone (Sample.kw_map (VInt 4)) ∧
  SampleJob.JobDict_pack SampleJob.plain Sample.kw_files
  = Sample.pack Sample.kw_files.
Proof.
  by apply (JobDict_of_plain_job Sample.jobhome Sample.worker Sample.owner
              Sample.version Sample.urllist Sample.read_index
              Sample.find_modules Sample.util_pack Sample.pack_files
              (gmap string value) Sample.dumps SampleJob.master
              SampleJob.master_getattr SampleJob.partial SampleJob.plain
              VNone (Sample.kw_map (VInt 4)) Sample.kw_files).
Defined.

(** A run of [run_jobpack_of_job]: the job of a subclass that defines
    [map], run with four partitions. *)
Lemma run_jobpack_of_job_witness :
  SampleJob.master_getattr "master" = Ok (VStr "localhost") ∧
  Forall (λ key, Sample.kw [("partitions", VInt 4)] !! key = None)
         Job.reserved ∧
  SampleJob.run_jobpack SampleJob.mapper (Sample.kw [("partitions", VInt 4)])
  = (S ← Sample.init (VStr "localhost")
           (<["prefix" := VStr "job"]> (Sample.kw [("partitions", VInt 4)])
            ∪ SampleJob.inherited SampleJob.mapper);
     '(jobpack, _) ← Sample.pack S;
     Ok jobpack).
Proof.
  split; [reflexivity |].
  assert (Forall (λ key, Sample.kw [("partitions", VInt 4)] !! key = None)
                 Job.reserved) as Hfree by (repeat constructor).
  split; [exact Hfree |].
  by apply (run_jobpack_of_job Sample.jobhome Sample.worker Sample.owner
              Sample.version Sample.urllist Sample.read_index
              Sample.find_modules Sample.util_pack Sample.pack_files
              (gmap string value) Sample.dumps SampleJob.master
              SampleJob.master_getattr SampleJob.request
              SampleJob.json_loads SampleJob.partial SampleJob.mapper
              (VStr "localhost") (Sample.kw [("partitions", VInt 4)])).
Defined.

(** The job of the subclass runs: the master is sent the job pack and the
    handle takes the name that the master replies; called with a [prefix],
    [run] raises before anything is sent. *)
Lemma mapper_runs :
  SampleJob.run SampleJob.mapper (Sample.kw [("partitions", VInt 4)])
  = Ok {| Job.name := VStr "job@549:d2f5a";
          Job.attrs := Job.attrs SampleJob.mapper |} ∧
  SampleJob.run_jobpack SampleJob.mapper (Sample.kw [("partitions", VInt 4)])
  ≫= (λ jobpack, Ok (jobpack !! "prefix", jobpack !! "nr_reduces",
                      jobpack !! "map?"))
  = Ok (Some (VStr "job"), Some (VInt 4), Some (VBool true)) ∧
  SampleJob.run SampleJob.mapper (Sample.kw [("prefix", VStr "other")])
  = Raise TypeError.
Proof. split; [compute_ok |]. split; compute_ok. Qed.
